(** * Auction simulator: models, winner resolution, runner and manager

    A shallow embedding of the Go packages [models], [bidder], [auction] and
    [manager].  Go's [float64] is Rocq's primitive binary64 [float]; Go's [int]
    and [time.Duration] are [Z]; a [time.Time] is the instant it denotes, in
    nanoseconds on the process clock, as a [Z]. *)

From Stdlib Require Import ZArith List Bool Lia Floats Permutation FinFun.
Import ListNotations.

Local Open Scope Z_scope.
Set Warnings "-inexact-float".

(** ** Comparison of [float64] values

    Go's [x > y], [x == y] and [x >= y] on [float64] are the IEEE 754
    comparisons: [PrimFloat.ltb y x], [PrimFloat.eqb x y], [PrimFloat.leb y x].
    All three are false as soon as an operand is NaN. *)

Module F64.

Definition gt (x y : float) : bool := PrimFloat.ltb y x.
Definition eq (x y : float) : bool := PrimFloat.eqb x y.
Definition ge (x y : float) : bool := PrimFloat.leb y x.

(** The rank of a value that is not NaN: class (infinities, sign of a finite
    value, zero), then exponent, then mantissa.  IEEE comparison is the
    lexicographic comparison of ranks. *)
Definition rank (f : spec_float) : Z * Z * Z :=
  match f with
  | S754_zero _ => (0, 0, 0)
  | S754_infinity false => (2, 0, 0)
  | S754_infinity true => (-2, 0, 0)
  | S754_nan => (0, 0, 0)
  | S754_finite false m e => (1, e, Zpos m)
  | S754_finite true m e => (-1, - e, Zneg m)
  end.

Definition lex (k1 k2 : Z * Z * Z) : comparison :=
  let '(a1, b1, c1) := k1 in
  let '(a2, b2, c2) := k2 in
  match a1 ?= a2 with
  | Eq => match b1 ?= b2 with Eq => c1 ?= c2 | r => r end
  | r => r
  end.

Definition sf_nan (f : spec_float) : bool :=
  match f with S754_nan => true | _ => false end.

(** The rank of a primitive float. *)
Definition rk (x : float) : Z * Z * Z := rank (Prim2SF x).

End F64.

(** ** Package [models] *)

(** [time.Time]: an instant.  [t.Before(u)] and [t.After(u)] compare
    instants. *)
Definition Time := Z.
Definition Before (t u : Time) : bool := t <? u.
Definition After (t u : Time) : bool := u <? t.

(** The zero [time.Time] (January 1, year 1, 00:00 UTC), in nanoseconds
    relative to the Unix epoch. *)
Definition zeroTime : Time := -62135596800 * 1000000000.

(** [time.Duration]: a number of nanoseconds. *)
Definition Duration := Z.
Definition Millisecond : Duration := 1000000.
Definition Second : Duration := 1000 * Millisecond.
(** [d.Milliseconds()]: integer division, truncated toward zero. *)
Definition Milliseconds (d : Duration) : Z := Z.quot d Millisecond.

Record Bid := mkBid {
  BidderID : Z;
  Amount : float;
  Timestamp : Time
}.

(** [Auction].  The mutex [mu] has no field: [AddBid] and [DetermineWinner]
    hold it for their whole body, so each is one atomic transition of the
    auction.  [Winner] is a [*Bid]: [None] is [nil], [Some b] a pointer whose
    pointee is [b]. *)
Record Auction := mkAuction {
  ID : Z;
  Attributes : list float;
  Timeout : Duration;
  TimeoutMs : Z;
  StartTime : Time;
  EndTime : Time;
  Bids : list Bid;
  Winner : option Bid;
  TotalBids : Z
}.

(** Number of attributes of an auction ([[20]float64]). *)
Definition NumAttributes : nat := 20.

Definition NewAuction (id : Z) (timeout : Duration) : Auction :=
  {| ID := id;
     Attributes := repeat PrimFloat.zero NumAttributes;
     Timeout := timeout;
     TimeoutMs := Milliseconds timeout;
     StartTime := zeroTime;
     EndTime := zeroTime;
     Bids := [];
     Winner := None;
     TotalBids := 0 |}.

Definition set_Attributes (a : Auction) (v : list float) : Auction :=
  {| ID := ID a; Attributes := v; Timeout := Timeout a;
     TimeoutMs := TimeoutMs a; StartTime := StartTime a; EndTime := EndTime a;
     Bids := Bids a; Winner := Winner a; TotalBids := TotalBids a |}.

Definition set_StartTime (a : Auction) (t : Time) : Auction :=
  {| ID := ID a; Attributes := Attributes a; Timeout := Timeout a;
     TimeoutMs := TimeoutMs a; StartTime := t; EndTime := EndTime a;
     Bids := Bids a; Winner := Winner a; TotalBids := TotalBids a |}.

Definition set_EndTime (a : Auction) (t : Time) : Auction :=
  {| ID := ID a; Attributes := Attributes a; Timeout := Timeout a;
     TimeoutMs := TimeoutMs a; StartTime := StartTime a; EndTime := t;
     Bids := Bids a; Winner := Winner a; TotalBids := TotalBids a |}.

(** [a.Bids = append(a.Bids, bid)] *)
Definition AddBid (a : Auction) (bid : Bid) : Auction :=
  {| ID := ID a; Attributes := Attributes a; Timeout := Timeout a;
     TimeoutMs := TimeoutMs a; StartTime := StartTime a; EndTime := EndTime a;
     Bids := Bids a ++ [bid]; Winner := Winner a; TotalBids := TotalBids a |}.

(** One iteration of the loop of [DetermineWinner]: [winner] is the pointee
    of the current candidate, [b] is [a.Bids[i]]. *)
Definition pick (winner b : Bid) : Bid :=
  if F64.gt (Amount b) (Amount winner) then b
  else if F64.eq (Amount b) (Amount winner)
          && Before (Timestamp b) (Timestamp winner) then b
  else winner.

(** The candidate after the loop has run over [a.Bids[1:]], starting from
    [&a.Bids[0]]; [nil] on an empty slice. *)
Definition highest (bids : list Bid) : option Bid :=
  match bids with
  | [] => None
  | b0 :: rest => Some (fold_left pick rest b0)
  end.

Definition DetermineWinner (a : Auction) : Auction :=
  {| ID := ID a; Attributes := Attributes a; Timeout := Timeout a;
     TimeoutMs := TimeoutMs a; StartTime := StartTime a; EndTime := EndTime a;
     Bids := Bids a;
     Winner := highest (Bids a);
     TotalBids := Z.of_nat (length (Bids a)) |}.

(** Bid amounts are real numbers: none is NaN. *)
Definition real_amounts (bids : list Bid) : Prop :=
  Forall (fun b => is_nan (Amount b) = false) bids.

(** [w] is a bid of [l] that no bid of [l] exceeds in amount and that has,
    among the bids of [l] with its amount, the earliest timestamp. *)
Definition best (l : list Bid) (w : Bid) : Prop :=
  In w l /\
  (forall b, In b l -> F64.gt (Amount b) (Amount w) = false) /\
  (forall b, In b l -> F64.eq (Amount b) (Amount w) = true ->
             Timestamp w <= Timestamp b).

(** ** Channels

    A buffered Go channel: the values queued, the capacity, and whether
    [close] has been called. *)
Record Chan (A : Type) := mkChan {
  buf : list A;
  cap : nat;
  closed : bool
}.
Arguments mkChan {A}.
Arguments buf {A}.
Arguments cap {A}.
Arguments closed {A}.

(** [make(chan A, n)] *)
Definition make_chan {A} (n : nat) : Chan A := mkChan [] n false.

(** [close(c)] on a channel that is not closed. *)
Definition close_chan {A} (c : Chan A) : Chan A := mkChan (buf c) (cap c) true.

(** Outcome of [select { case c <- v: default: }].  A send on a closed
    channel is a ready communication of the [select], and it panics. *)
Inductive send_result (A : Type) :=
| Sent (c : Chan A)
| NotReady
| SendPanic.
Arguments Sent {A}.
Arguments NotReady {A}.
Arguments SendPanic {A}.

Definition try_send {A} (c : Chan A) (v : A) : send_result A :=
  if closed c then SendPanic
  else if (length (buf c) <? cap c)%nat
       then Sent (mkChan (buf c ++ [v]) (cap c) false)
       else NotReady.

(** ** Package [bidder] *)

(** [rand.Float64()] returns a value of [[0.0, 1.0)]. *)
Definition unit_draw (r : float) : bool :=
  F64.ge r 0 && F64.gt 1 r.

(** [rand.Intn(n)] returns a value of [[0, n)]. *)
Definition Intn_draw (n r : Z) : Prop := 0 <= r < n.

Module bidder.

Record Bidder := mkBidder {
  ID : Z;
  ParticipationRate : float
}.

(** [NewBidder(id)]; [r] is the value of [rand.Float64()]. *)
Definition NewBidder (id : Z) (r : float) : Bidder :=
  {| ID := id; ParticipationRate := (0.6 + r * 0.2)%float |}.

(** The test of [ConsiderBid]: the bidder returns without bidding when
    [rand.Float64() > b.ParticipationRate]; [r] is the value drawn. *)
Definition participates (b : Bidder) (r : float) : bool :=
  negb (F64.gt r (ParticipationRate b)).

(** [time.Duration(10+rand.Intn(490)) * time.Millisecond]; [r] is the value
    of [rand.Intn(490)]. *)
Definition processingDelay (r : Z) : Duration := (10 + r) * Millisecond.

(** The loop of [calculateBid]: [score += attributes[i] * weight], the
    weights being the successive values of [rand.Float64()]. *)
Fixpoint weighted (attributes weights : list float) (score : float) : float :=
  match attributes, weights with
  | x :: attributes', w :: weights' =>
      weighted attributes' weights' (score + x * w)%float
  | _, _ => score
  end.

(** [calculateBid(attributes)]; [weights] are the twenty values drawn in the
    loop and [f] the value drawn for the random factor. *)
Definition calculateBid (attributes weights : list float) (f : float) : float :=
  let score := weighted attributes weights 0%float in
  let bidAmount := (100 + (score / 20) * 9900)%float in
  let randomFactor := (0.8 + f * 0.4)%float in
  (bidAmount * randomFactor)%float.

End bidder.

(** ** Package [auction]: one run of [Run]

    [Run] and the goroutines it starts (the collection loop, one [placeBid]
    per participating bidder, the timer of the context) are interleaved by the
    scheduler.  A state records where each of them stands; a step is one
    atomic action of one of them.  The parent context is
    [context.Background()], as [main] passes it: only the timeout ends the
    collection. *)
Module auction.

(** Where the body of [Run] stands. *)
Inductive phase :=
| Created      (* the auction is allocated *)
| Started      (* attributes and StartTime are set *)
| Notifying    (* bidChan and the context exist; inside notifyBidders *)
| Waiting      (* the collection loop runs; Run waits for the deadline *)
| ChanClosed   (* close(bidChan) done *)
| Closed.      (* EndTime set, winner determined, result sent *)

(** Where the collection goroutine stands. *)
Inductive collector := NotStarted | Looping | Stopped.

Record state := mkState {
  now : Time;                           (* the clock read by time.Now() *)
  pc : phase;
  au : Auction;                         (* the variable [auction] *)
  deadline : option Time;               (* deadline of auctionCtx *)
  fired : bool;                         (* auctionCtx.Done() is closed *)
  pending : list bidder.Bidder;         (* bidders notifyBidders has yet to reach *)
  placing : list (bidder.Bidder * Time);(* placeBid goroutines before their
                                           select, with the end of their sleep *)
  bidChan : Chan Bid;
  loop : collector;
  panicked : bool
}.

Definition BidChanCap : nat := 200.

(** The state when [Run] has executed [models.NewAuction]; [bidders] are the
    bidders [notifyBidders] ranges over. *)
Definition init (t0 : Time) (auctionID : Z) (timeout : Duration)
    (bidders : list bidder.Bidder) : state :=
  {| now := t0; pc := Created; au := NewAuction auctionID timeout;
     deadline := None; fired := false; pending := bidders; placing := [];
     bidChan := make_chan 0; loop := NotStarted; panicked := false |}.

Definition unit_draws (n : nat) (l : list float) : Prop :=
  length l = n /\ Forall (fun r => unit_draw r = true) l.

Inductive step : state -> state -> Prop :=
(* the clock advances *)
| tick s t :
    panicked s = false -> now s <= t ->
    step s (mkState t (pc s) (au s) (deadline s) (fired s) (pending s)
              (placing s) (bidChan s) (loop s) false)
(* Run: auction.Attributes[i] = rand.Float64(); auction.StartTime = time.Now() *)
| start s attrs :
    panicked s = false -> pc s = Created -> unit_draws NumAttributes attrs ->
    step s (mkState (now s) Started
              (set_StartTime (set_Attributes (au s) attrs) (now s))
              (deadline s) (fired s) (pending s) (placing s) (bidChan s)
              (loop s) false)
(* Run: bidChan := make(chan models.Bid, 200); context.WithTimeout(ctx, timeout) *)
| open s :
    panicked s = false -> pc s = Started ->
    step s (mkState (now s) Notifying (au s)
              (Some (now s + Timeout (au s))) (fired s) (pending s)
              (placing s) (make_chan BidChanCap) (loop s) false)
(* the timer of auctionCtx fires, at or after the deadline *)
| fire s d :
    panicked s = false -> deadline s = Some d -> d <= now s ->
    step s (mkState (now s) (pc s) (au s) (deadline s) true (pending s)
              (placing s) (bidChan s) (loop s) false)
(* ConsiderBid: rand.Float64() > b.ParticipationRate, return *)
| skip s b rest r :
    panicked s = false -> pc s = Notifying -> pending s = b :: rest ->
    unit_draw r = true -> bidder.participates b r = false ->
    step s (mkState (now s) (pc s) (au s) (deadline s) (fired s) rest
              (placing s) (bidChan s) (loop s) false)
(* ConsiderBid: go b.placeBid(auction, bidChan); the goroutine draws its
   processing delay and sleeps *)
| spawn s b rest r n :
    panicked s = false -> pc s = Notifying -> pending s = b :: rest ->
    unit_draw r = true -> bidder.participates b r = true ->
    Intn_draw 490 n ->
    step s (mkState (now s) (pc s) (au s) (deadline s) (fired s) rest
              ((b, now s + bidder.processingDelay n) :: placing s)
              (bidChan s) (loop s) false)
(* Run: notifyBidders has returned; go func() { for { select ... } }() *)
| notified s :
    panicked s = false -> pc s = Notifying -> pending s = [] ->
    step s (mkState (now s) Waiting (au s) (deadline s) (fired s) []
              (placing s) (bidChan s) Looping false)
(* placeBid, after time.Sleep: the bid is computed, stamped and offered to
   bidChan with select/default *)
| place_sent s pre b wake post weights f c :
    panicked s = false -> placing s = pre ++ (b, wake) :: post ->
    wake <= now s ->
    unit_draws NumAttributes weights -> unit_draw f = true ->
    try_send (bidChan s)
      (mkBid (bidder.ID b)
             (bidder.calculateBid (Attributes (au s)) weights f) (now s))
      = Sent c ->
    step s (mkState (now s) (pc s) (au s) (deadline s) (fired s) (pending s)
              (pre ++ post) c (loop s) false)
| place_dropped s pre b wake post weights f :
    panicked s = false -> placing s = pre ++ (b, wake) :: post ->
    wake <= now s ->
    unit_draws NumAttributes weights -> unit_draw f = true ->
    try_send (bidChan s)
      (mkBid (bidder.ID b)
             (bidder.calculateBid (Attributes (au s)) weights f) (now s))
      = NotReady ->
    step s (mkState (now s) (pc s) (au s) (deadline s) (fired s) (pending s)
              (pre ++ post) (bidChan s) (loop s) false)
| place_panic s pre b wake post weights f :
    panicked s = false -> placing s = pre ++ (b, wake) :: post ->
    wake <= now s ->
    unit_draws NumAttributes weights -> unit_draw f = true ->
    try_send (bidChan s)
      (mkBid (bidder.ID b)
             (bidder.calculateBid (Attributes (au s)) weights f) (now s))
      = SendPanic ->
    step s (mkState (now s) (pc s) (au s) (deadline s) (fired s) (pending s)
              (pre ++ post) (bidChan s) (loop s) true)
(* collection loop: case bid := <-bidChan: auction.AddBid(bid) *)
| collect s bid rest :
    panicked s = false -> loop s = Looping ->
    buf (bidChan s) = bid :: rest ->
    step s (mkState (now s) (pc s) (AddBid (au s) bid) (deadline s) (fired s)
              (pending s) (placing s)
              (mkChan rest (cap (bidChan s)) (closed (bidChan s)))
              (loop s) false)
(* collection loop: case <-auctionCtx.Done(): close(done); return *)
| stop s :
    panicked s = false -> loop s = Looping -> fired s = true ->
    step s (mkState (now s) (pc s) (au s) (deadline s) (fired s) (pending s)
              (placing s) (bidChan s) Stopped false)
(* Run: <-auctionCtx.Done(); <-done; close(bidChan) *)
| close s :
    panicked s = false -> pc s = Waiting -> fired s = true ->
    loop s = Stopped ->
    step s (mkState (now s) ChanClosed (au s) (deadline s) (fired s)
              (pending s) (placing s) (close_chan (bidChan s)) (loop s) false)
(* Run: auction.EndTime = time.Now(); auction.DetermineWinner();
   results <- auction *)
| resolve s :
    panicked s = false -> pc s = ChanClosed ->
    step s (mkState (now s) Closed
              (DetermineWinner (set_EndTime (au s) (now s)))
              (deadline s) (fired s) (pending s) (placing s) (bidChan s)
              (loop s) false).

(** *** Executions as lists of actions

    An action names the goroutine that moves and the values it draws; [exec1]
    performs it when the step relation allows it. *)
Inductive action :=
| ATick (t : Time)
| AStart (attrs : list float)
| AOpen
| AFire
| AConsider (r : float) (n : Z)   (* ConsiderBid on the next bidder *)
| ANotified
| APlace (k : nat) (weights : list float) (f : float)
                                  (* the [k]-th placeBid goroutine *)
| ACollect
| AStop
| AClose
| AResolve.

Definition unit_drawsb (n : nat) (l : list float) : bool :=
  (length l =? n)%nat && forallb unit_draw l.

Definition exec1 (s : state) (a : action) : option state :=
  if panicked s then None else
  match a with
  | ATick t =>
      if now s <=? t
      then Some (mkState t (pc s) (au s) (deadline s) (fired s) (pending s)
                   (placing s) (bidChan s) (loop s) false)
      else None
  | AStart attrs =>
      match pc s with
      | Created =>
          if unit_drawsb NumAttributes attrs
          then Some (mkState (now s) Started
                       (set_StartTime (set_Attributes (au s) attrs) (now s))
                       (deadline s) (fired s) (pending s) (placing s)
                       (bidChan s) (loop s) false)
          else None
      | _ => None
      end
  | AOpen =>
      match pc s with
      | Started =>
          Some (mkState (now s) Notifying (au s)
                  (Some (now s + Timeout (au s))) (fired s) (pending s)
                  (placing s) (make_chan BidChanCap) (loop s) false)
      | _ => None
      end
  | AFire =>
      match deadline s with
      | Some d =>
          if d <=? now s
          then Some (mkState (now s) (pc s) (au s) (deadline s) true
                       (pending s) (placing s) (bidChan s) (loop s) false)
          else None
      | None => None
      end
  | AConsider r n =>
      match pc s, pending s with
      | Notifying, b :: rest =>
          if unit_draw r then
            if bidder.participates b r then
              if (0 <=? n) && (n <? 490)
              then Some (mkState (now s) (pc s) (au s) (deadline s) (fired s)
                           rest
                           ((b, now s + bidder.processingDelay n) :: placing s)
                           (bidChan s) (loop s) false)
              else None
            else Some (mkState (now s) (pc s) (au s) (deadline s) (fired s)
                         rest (placing s) (bidChan s) (loop s) false)
          else None
      | _, _ => None
      end
  | ANotified =>
      match pc s, pending s with
      | Notifying, [] =>
          Some (mkState (now s) Waiting (au s) (deadline s) (fired s) []
                  (placing s) (bidChan s) Looping false)
      | _, _ => None
      end
  | APlace k weights f =>
      match nth_error (placing s) k with
      | Some (b, wake) =>
          if (wake <=? now s) && unit_drawsb NumAttributes weights
             && unit_draw f
          then
            let rest := firstn k (placing s) ++ skipn (S k) (placing s) in
            match try_send (bidChan s)
                    (mkBid (bidder.ID b)
                       (bidder.calculateBid (Attributes (au s)) weights f)
                       (now s)) with
            | Sent c =>
                Some (mkState (now s) (pc s) (au s) (deadline s) (fired s)
                        (pending s) rest c (loop s) false)
            | NotReady =>
                Some (mkState (now s) (pc s) (au s) (deadline s) (fired s)
                        (pending s) rest (bidChan s) (loop s) false)
            | SendPanic =>
                Some (mkState (now s) (pc s) (au s) (deadline s) (fired s)
                        (pending s) rest (bidChan s) (loop s) true)
            end
          else None
      | None => None
      end
  | ACollect =>
      match loop s, buf (bidChan s) with
      | Looping, bid :: rest =>
          Some (mkState (now s) (pc s) (AddBid (au s) bid) (deadline s)
                  (fired s) (pending s) (placing s)
                  (mkChan rest (cap (bidChan s)) (closed (bidChan s)))
                  (loop s) false)
      | _, _ => None
      end
  | AStop =>
      match loop s with
      | Looping =>
          if fired s
          then Some (mkState (now s) (pc s) (au s) (deadline s) (fired s)
                       (pending s) (placing s) (bidChan s) Stopped false)
          else None
      | _ => None
      end
  | AClose =>
      match pc s, loop s with
      | Waiting, Stopped =>
          if fired s
          then Some (mkState (now s) ChanClosed (au s) (deadline s) (fired s)
                       (pending s) (placing s) (close_chan (bidChan s))
                       (loop s) false)
          else None
      | _, _ => None
      end
  | AResolve =>
      match pc s with
      | ChanClosed =>
          Some (mkState (now s) Closed
                  (DetermineWinner (set_EndTime (au s) (now s)))
                  (deadline s) (fired s) (pending s) (placing s) (bidChan s)
                  (loop s) false)
      | _ => None
      end
  end.

Fixpoint exec (s : state) (l : list action) : option state :=
  match l with
  | [] => Some s
  | a :: l' =>
      match exec1 s a with
      | Some s' => exec s' l'
      | None => None
      end
  end.

(** States an execution can reach. *)
Inductive reachable (s0 : state) : state -> Prop :=
| reach_init : reachable s0 s0
| reach_step s s' : reachable s0 s -> step s s' -> reachable s0 s'.

(** [Run(ctx, auctionID, timeout, notifyBidders, results)], called at [t0]
    with [notifyBidders] ranging over [bidders], can send [a] to [results]. *)
Definition completes (bidders : list bidder.Bidder) (auctionID : Z)
    (timeout : Duration) (a : Auction) : Prop :=
  exists t0 s, reachable (init t0 auctionID timeout bidders) s /\
               pc s = Closed /\ au s = a.

(** The identifiers of the bidders and bids of a state: bidders still to be
    notified, bidders computing their bid, bids queued, bids appended. *)
Definition ids (s : state) : list Z :=
  map bidder.ID (pending s)
  ++ map (fun p => bidder.ID (fst p)) (placing s)
  ++ map BidderID (buf (bidChan s))
  ++ map BidderID (Bids (au s)).

(** The deadline is set, lies at least the timeout after the start, and the
    timer has not fired before it. *)
Definition deadline_ok (timeout : Duration) (s : state) : Prop :=
  match deadline s with
  | Some d => StartTime (au s) + timeout <= d /\ (fired s = true -> d <= now s)
  | None => False
  end.

(** What holds at each program point of a run of auction [auctionID] with
    timeout [timeout]. *)
Definition timing (auctionID : Z) (timeout : Duration) (s : state) : Prop :=
  ID (au s) = auctionID /\
  Timeout (au s) = timeout /\
  match pc s with
  | Created =>
      deadline s = None /\ fired s = false /\ closed (bidChan s) = false /\
      loop s = NotStarted
  | Started =>
      deadline s = None /\ fired s = false /\ closed (bidChan s) = false /\
      loop s = NotStarted /\ StartTime (au s) <= now s
  | Notifying =>
      closed (bidChan s) = false /\ StartTime (au s) <= now s /\
      deadline_ok timeout s /\ loop s = NotStarted
  | Waiting =>
      closed (bidChan s) = false /\ StartTime (au s) <= now s /\
      deadline_ok timeout s /\ loop s <> NotStarted /\
      (loop s = Stopped -> fired s = true)
  | ChanClosed =>
      closed (bidChan s) = true /\ StartTime (au s) <= now s /\
      deadline_ok timeout s /\ fired s = true /\ loop s = Stopped
  | Closed =>
      closed (bidChan s) = true /\ StartTime (au s) <= now s /\
      deadline_ok timeout s /\ fired s = true /\ loop s = Stopped /\
      StartTime (au s) <= EndTime (au s) /\
      StartTime (au s) + timeout <= EndTime (au s) /\
      Winner (au s) = highest (Bids (au s)) /\
      TotalBids (au s) = Z.of_nat (length (Bids (au s)))
  end.

End auction.

(** ** Package [manager] *)
Module manager.

Definition NumAuctions : nat := 40.
Definition NumBidders : nat := 100.

Record Manager := mkManager {
  bidders : list bidder.Bidder
}.

(** [NewManager]: [bidders[i] = bidder.NewBidder(i + 1)] for [i] from 0 to
    [NumBidders - 1]; [rnd i] is the value of [rand.Float64()] in the call
    for [i]. *)
Definition NewManager (rnd : nat -> float) : Manager :=
  {| bidders :=
       map (fun i => bidder.NewBidder (Z.of_nat (i + 1)) (rnd i))
           (seq 0 NumBidders) |}.

(** The timeout [Run] gives every auction. *)
Definition timeout : Duration := 5 * Second.

(** The last part of [Run]: first start and last end over the results. *)
Fixpoint bounds_loop (rs : list Auction) (firstStart lastEnd : Time)
  : Time * Time :=
  match rs with
  | [] => (firstStart, lastEnd)
  | a :: rs' =>
      let firstStart' :=
        if Before (StartTime a) firstStart then StartTime a else firstStart in
      let lastEnd' :=
        if After (EndTime a) lastEnd then EndTime a else lastEnd in
      bounds_loop rs' firstStart' lastEnd'
  end.

Definition bounds (auctionResults : list Auction) : Time * Time :=
  match auctionResults with
  | [] => (zeroTime, zeroTime)
  | a0 :: _ => bounds_loop auctionResults (StartTime a0) (EndTime a0)
  end.

(** Where the body of [Run] stands. *)
Inductive phase :=
| Launching (i : nat)   (* at the test of the loop that starts the auctions *)
| Collecting            (* in [for result := range results] *)
| Returned.

(** The goroutine of [wg.Wait(); close(results)]. *)
Inductive closer := NotStarted | WaitingWg | Finished.

Record state := mkState {
  pc : phase;
  wg : Z;                        (* counter of the WaitGroup *)
  running : list Z;              (* auctions whose goroutine is inside auction.Run *)
  sent : list Z;                 (* goroutines back from auction.Run, before wg.Done() *)
  cl : closer;
  results : Chan Auction;
  auctionResults : list Auction;
  firstStart : Time;
  lastEnd : Time;
  panicked : bool
}.

Definition init : state :=
  {| pc := Launching 1; wg := 0; running := []; sent := []; cl := NotStarted;
     results := make_chan NumAuctions; auctionResults := [];
     firstStart := zeroTime; lastEnd := zeroTime; panicked := false |}.

Section Run.
Variable m : Manager.

(** Number of auctions launched so far. *)
Definition started (s : state) : nat :=
  match pc s with
  | Launching i => i - 1
  | _ => NumAuctions
  end.

(** The results sent so far: collected or still queued. *)
Definition emitted (s : state) : list Auction :=
  auctionResults s ++ buf (results s).

(** A step of [Run] or of one of the goroutines it starts.  The [placeBid]
    goroutines that a call of [auction.Run] starts belong to the same
    process: when one of them panics, the process ends, whatever [Run] was
    doing. *)
Inductive step : state -> state -> Prop :=
(* wg.Add(1); go func(auctionID int) {...}(i); i++ *)
| launch s i :
    panicked s = false -> pc s = Launching i -> (i <= NumAuctions)%nat ->
    step s (mkState (Launching (S i)) (wg s + 1) (Z.of_nat i :: running s)
              (sent s) (cl s) (results s) (auctionResults s)
              (firstStart s) (lastEnd s) false)
(* the loop ends; go func() { wg.Wait(); close(results) }() *)
| launched s i :
    panicked s = false -> pc s = Launching i -> (NumAuctions < i)%nat ->
    step s (mkState Collecting (wg s) (running s) (sent s) WaitingWg
              (results s) (auctionResults s) (firstStart s) (lastEnd s) false)
(* auction.Run(ctx, auctionID, timeout, notifyBidders, results) sends its
   auction; the send waits while the buffer is full *)
| emit s pre i post a :
    panicked s = false -> running s = pre ++ i :: post ->
    auction.completes (bidders m) i timeout a ->
    closed (results s) = false ->
    (length (buf (results s)) < cap (results s))%nat ->
    step s (mkState (pc s) (wg s) (pre ++ post) (i :: sent s) (cl s)
              (mkChan (buf (results s) ++ [a]) (cap (results s)) false)
              (auctionResults s) (firstStart s) (lastEnd s) false)
(* the same send on a closed channel panics *)
| emit_panic s pre i post a :
    panicked s = false -> running s = pre ++ i :: post ->
    auction.completes (bidders m) i timeout a ->
    closed (results s) = true ->
    step s (mkState (pc s) (wg s) (pre ++ post) (sent s) (cl s)
              (results s) (auctionResults s) (firstStart s) (lastEnd s) true)
(* defer wg.Done() *)
| done s pre i post :
    panicked s = false -> sent s = pre ++ i :: post ->
    step s (mkState (pc s) (wg s - 1) (running s) (pre ++ post) (cl s)
              (results s) (auctionResults s) (firstStart s) (lastEnd s) false)
(* wg.Wait() returns; close(results) *)
| close s :
    panicked s = false -> cl s = WaitingWg -> wg s = 0 ->
    step s (mkState (pc s) (wg s) (running s) (sent s) Finished
              (close_chan (results s)) (auctionResults s)
              (firstStart s) (lastEnd s) false)
(* for result := range results { auctionResults = append(auctionResults, result) } *)
| recv s a rest :
    panicked s = false -> pc s = Collecting ->
    buf (results s) = a :: rest ->
    step s (mkState (pc s) (wg s) (running s) (sent s) (cl s)
              (mkChan rest (cap (results s)) (closed (results s)))
              (auctionResults s ++ [a]) (firstStart s) (lastEnd s) false)
(* the range loop ends on the closed, drained channel; the bounds are
   computed; return auctionResults, firstStart, lastEnd, nil *)
| ret s :
    panicked s = false -> pc s = Collecting ->
    buf (results s) = [] -> closed (results s) = true ->
    step s (mkState Returned (wg s) (running s) (sent s) (cl s) (results s)
              (auctionResults s)
              (fst (bounds (auctionResults s)))
              (snd (bounds (auctionResults s))) false)
(* inside auction.Run for auction i, after close(bidChan) and before
   results <- auction: a placeBid goroutine of that auction reaches its
   select, the send on the closed bidChan panics *)
| bid_panic s pre i post t0 a :
    panicked s = false -> running s = pre ++ i :: post ->
    auction.reachable (auction.init t0 i timeout (bidders m)) a ->
    auction.pc a = auction.ChanClosed -> auction.panicked a = true ->
    step s (mkState (pc s) (wg s) (running s) (sent s) (cl s) (results s)
              (auctionResults s) (firstStart s) (lastEnd s) true)
(* the same after auction.Run has sent its auction r and returned: the
   placeBid goroutines it started outlive it *)
| late_bid_panic s r t0 a :
    panicked s = false -> In r (emitted s) ->
    auction.reachable (auction.init t0 (ID r) timeout (bidders m)) a ->
    auction.pc a = auction.Closed -> auction.au a = r ->
    auction.panicked a = true ->
    step s (mkState (pc s) (wg s) (running s) (sent s) (cl s) (results s)
              (auctionResults s) (firstStart s) (lastEnd s) true).

Inductive reachable (s0 : state) : state -> Prop :=
| reach_init : reachable s0 s0
| reach_step s s' : reachable s0 s -> step s s' -> reachable s0 s'.

(** What holds in every state of [Run], also when the process has
    panicked. *)
Definition inv (s : state) : Prop :=
  cap (results s) = NumAuctions /\
  wg s = Z.of_nat (length (running s) + length (sent s)) /\
  Permutation (running s ++ map ID (emitted s))
              (map Z.of_nat (seq 1 (started s))) /\
  (forall a, In a (emitted s) ->
     auction.completes (bidders m) (ID a) timeout a) /\
  match pc s with
  | Launching i =>
      (1 <= i <= S NumAuctions)%nat /\ cl s = NotStarted /\
      closed (results s) = false
  | Collecting =>
      (cl s = WaitingWg /\ closed (results s) = false) \/
      (cl s = Finished /\ closed (results s) = true /\
       running s = [] /\ sent s = [])
  | Returned =>
      cl s = Finished /\ closed (results s) = true /\
      running s = [] /\ sent s = [] /\ buf (results s) = [] /\
      firstStart s = fst (bounds (auctionResults s)) /\
      lastEnd s = snd (bounds (auctionResults s))
  end.

End Run.

(** *** Executions of [Run] as lists of actions

    [result i] is the auction that the goroutine of auction [i] sends. *)
Inductive action :=
| ALaunch
| ALaunched
| AEmit (k : nat)     (* the [k]-th goroutine of [running] sends *)
| ADone (k : nat)     (* the [k]-th goroutine of [sent] calls wg.Done() *)
| AClose
| ARecv
| ARet.

Section Exec.
Variable result : Z -> Auction.

Definition exec1 (s : state) (a : action) : option state :=
  if panicked s then None else
  match a with
  | ALaunch =>
      match pc s with
      | Launching i =>
          if (i <=? NumAuctions)%nat
          then Some (mkState (Launching (S i)) (wg s + 1)
                       (Z.of_nat i :: running s) (sent s) (cl s) (results s)
                       (auctionResults s) (firstStart s) (lastEnd s) false)
          else None
      | _ => None
      end
  | ALaunched =>
      match pc s with
      | Launching i =>
          if (NumAuctions <? i)%nat
          then Some (mkState Collecting (wg s) (running s) (sent s) WaitingWg
                       (results s) (auctionResults s) (firstStart s)
                       (lastEnd s) false)
          else None
      | _ => None
      end
  | AEmit k =>
      match nth_error (running s) k with
      | Some i =>
          let rest := firstn k (running s) ++ skipn (S k) (running s) in
          if closed (results s)
          then Some (mkState (pc s) (wg s) rest (sent s) (cl s) (results s)
                       (auctionResults s) (firstStart s) (lastEnd s) true)
          else if (length (buf (results s)) <? cap (results s))%nat
          then Some (mkState (pc s) (wg s) rest (i :: sent s) (cl s)
                       (mkChan (buf (results s) ++ [result i])
                               (cap (results s)) false)
                       (auctionResults s) (firstStart s) (lastEnd s) false)
          else None
      | None => None
      end
  | ADone k =>
      match nth_error (sent s) k with
      | Some i =>
          Some (mkState (pc s) (wg s - 1) (running s)
                  (firstn k (sent s) ++ skipn (S k) (sent s)) (cl s)
                  (results s) (auctionResults s) (firstStart s) (lastEnd s)
                  false)
      | None => None
      end
  | AClose =>
      match cl s with
      | WaitingWg =>
          if wg s =? 0
          then Some (mkState (pc s) (wg s) (running s) (sent s) Finished
                       (close_chan (results s)) (auctionResults s)
                       (firstStart s) (lastEnd s) false)
          else None
      | _ => None
      end
  | ARecv =>
      match pc s, buf (results s) with
      | Collecting, a :: rest =>
          Some (mkState (pc s) (wg s) (running s) (sent s) (cl s)
                  (mkChan rest (cap (results s)) (closed (results s)))
                  (auctionResults s ++ [a]) (firstStart s) (lastEnd s) false)
      | _, _ => None
      end
  | ARet =>
      match pc s, buf (results s) with
      | Collecting, [] =>
          if closed (results s)
          then Some (mkState Returned (wg s) (running s) (sent s) (cl s)
                       (results s) (auctionResults s)
                       (fst (bounds (auctionResults s)))
                       (snd (bounds (auctionResults s))) false)
          else None
      | _, _ => None
      end
  end.

Fixpoint exec (s : state) (l : list action) : option state :=
  match l with
  | [] => Some s
  | a :: l' =>
      match exec1 s a with
      | Some s' => exec s' l'
      | None => None
      end
  end.

End Exec.

(** The schedule in which the goroutines run one after the other: all
    auctions are launched, each in turn sends its result and calls
    [wg.Done()], the channel is closed, the results are received. *)
Definition sequential : list action :=
  repeat ALaunch NumAuctions ++ [ALaunched]
  ++ concat (repeat [AEmit 0; ADone 0] NumAuctions)
  ++ [AClose] ++ repeat ARecv NumAuctions ++ [ARet].

(** Number of steps [Run] and its goroutines have left at most, as long as
    nothing panics. *)
Definition fuel (s : state) : nat :=
  (match pc s with
   | Launching i => 4 * (S NumAuctions - i) + 1
   | _ => 0
   end
   + 3 * length (running s) + length (sent s) + length (buf (results s))
   + (if closed (results s) then 0 else 1)
   + (match pc s with Returned => 0 | _ => 1 end))%nat.

(** The identifiers of the auctions [Run] launches: 1, ..., 40. *)
Definition auction_ids : list Z := map Z.of_nat (seq 1 NumAuctions).

End manager.

(** ** The global random source

    [main] seeds the global source of [math/rand] once; every goroutine then
    draws from it.  A seeded source is the sequence of values it will return;
    each call takes the next one. *)
Module rng.

Definition source := nat -> float.

(** Attribute loops of the first two auctions against the shared source:
    the cursor into the source and the attributes each auction has so far. *)
Record state := mkState {
  cursor : nat;
  attrs1 : list float;
  attrs2 : list float
}.

Definition init : state := mkState 0 [] [].

(** Goroutine [g] executes [auction.Attributes[i] = rand.Float64()] once, if
    its loop has not ended. *)
Definition draw (src : source) (s : state) (g : Z) : state :=
  if g =? 1 then
    if (length (attrs1 s) <? NumAttributes)%nat
    then mkState (S (cursor s)) (attrs1 s ++ [src (cursor s)]) (attrs2 s)
    else s
  else if g =? 2 then
    if (length (attrs2 s) <? NumAttributes)%nat
    then mkState (S (cursor s)) (attrs1 s) (attrs2 s ++ [src (cursor s)])
    else s
  else s.

(** An execution under a schedule: the goroutine that runs at each turn. *)
Definition exec (src : source) (schedule : list Z) : state :=
  fold_left (draw src) schedule init.

(** Both loops have run to their end. *)
Definition complete (s : state) : Prop :=
  length (attrs1 s) = NumAttributes /\ length (attrs2 s) = NumAttributes.

(** The goroutine of auction 1 runs its attribute loop before that of
    auction 2, or after it. *)
Definition first_then_second : list Z := repeat 1 20 ++ repeat 2 20.
Definition second_then_first : list Z := repeat 2 20 ++ repeat 1 20.

(** A source whose twenty-first value differs from its first. *)
Definition step_source : source :=
  fun n => if (n <? 20)%nat then 0.25%float else 0.75%float.

End rng.

(** ** Sample runs

    Runs of [auction.Run] over the hundred bidders that [NewManager] builds
    when every draw is 0.5; every attribute, weight and random factor drawn
    is 0.5 as well. *)
Module sample.
Import auction.

Definition halves : list float := repeat 0.5%float NumAttributes.

Definition mgr : manager.Manager := manager.NewManager (fun _ => 0.5%float).

(** Auction [auctionID] of the manager, started at instant 0. *)
Definition start_of (auctionID : Z) : state :=
  init 0 auctionID manager.timeout (manager.bidders mgr).

(** Auction 1 run with a timeout of 10 ms, the shortest processing delay. *)
Definition short_start : state :=
  init 0 1 (10 * Millisecond) (manager.bidders mgr).

(** Every bidder participates; the processing delay is 10 ms for bidders 1
    to 99 and 499 ms for bidder 100.  The goroutine of bidder 100 is then
    the first of [placing], that of bidder 1 the last. *)
Definition opening : list action :=
  [AStart halves; AOpen] ++ repeat (AConsider 0.5 0) 99
  ++ [AConsider 0.5 489; ANotified].

(** With the 10 ms timeout: bidder 1 submits at 10 ms, and its bid is queued
    when the deadline fires, at 10 ms too. *)
Definition until_deadline : list action :=
  opening ++ [ATick (10 * Millisecond); APlace 99 halves 0.5; AFire].

(** The run then ends; bidder 100 reaches its [select] at 499 ms. *)
Definition late_submission : list action :=
  until_deadline ++ [AStop; AClose; AResolve; ATick (499 * Millisecond);
                     APlace 0 halves 0.5].

(** With the 10 ms timeout: the deadline fires at 10 ms; bidder 1 reaches
    its [select] at 11 ms, and its bid, stamped then, is received by the
    collection loop before the loop takes the deadline branch. *)
Definition late_winner : list action :=
  opening ++ [ATick (10 * Millisecond); AFire; ATick (11 * Millisecond);
              APlace 99 halves 0.5; ACollect; AStop; AClose; AResolve].

(** With the manager's timeout: bidders 1 to 99 submit at 10 ms, bidder 100
    at 499 ms, every bid is collected, and the run ends at 5 s. *)
Definition full_run : list action :=
  opening ++ [ATick (10 * Millisecond)]
  ++ flat_map (fun k => [APlace k halves 0.5; ACollect]) (rev (seq 1 99))
  ++ [ATick (499 * Millisecond); APlace 0 halves 0.5; ACollect;
      ATick (5 * Second); AFire; AStop; AClose; AResolve].

(** With the manager's timeout: bidders 1 to 99 submit at 10 ms and are
    collected; the goroutine of bidder 100 has not run yet when [Run] closes
    [bidChan] at 5 s, and reaches its [select] then. *)
Definition late_panic : list action :=
  opening ++ [ATick (10 * Millisecond)]
  ++ flat_map (fun k => [APlace k halves 0.5; ACollect]) (rev (seq 1 99))
  ++ [ATick (5 * Second); AFire; AStop; AClose; APlace 0 halves 0.5].

(** An auction nobody is notified of. *)
Definition no_bidders : list action :=
  [AStart halves; AOpen; ANotified; ATick (5 * Second); AFire; AStop; AClose;
   AResolve].

(** The state at the end of an execution ([s] itself if an action of [l] is
    not enabled). *)
Definition final (s : state) (l : list action) : state :=
  match exec s l with
  | Some s' => s'
  | None => s
  end.

(** The auction that [Run] sends for [auctionID] in the full run. *)
Definition result (auctionID : Z) : Auction :=
  au (final (start_of auctionID) full_run).

(** The state in which [manager.Run] returns under the sequential schedule,
    every auction running as in [full_run]. *)
Definition returned : manager.state :=
  match manager.exec result manager.init manager.sequential with
  | Some s => s
  | None => manager.init
  end.

(** The forty auctions are launched; auctions 40 and 39 send their results,
    auction 40 calls [wg.Done()] and its result is received. *)
Definition first_results : list manager.action :=
  repeat manager.ALaunch manager.NumAuctions
  ++ [manager.ALaunched; manager.AEmit 0; manager.ADone 0; manager.AEmit 0;
      manager.ARecv].

(** The forty auctions are launched and [Run] is in its range loop. *)
Definition all_launched : manager.state :=
  match manager.exec result manager.init
          (repeat manager.ALaunch manager.NumAuctions ++ [manager.ALaunched])
  with
  | Some s => s
  | None => manager.init
  end.

(** [manager.Run] midway: thirty-eight auctions still run, one result is
    collected, one is queued. *)
Definition midway : manager.state :=
  match manager.exec result manager.init first_results with
  | Some s => s
  | None => manager.init
  end.

End sample.

(** ** Where the bids of a run come from *)
Module provenance.
Import auction.

(** The bids of a state: queued in [bidChan] or appended to the auction. *)
Definition bids_of (s : state) : list Bid := buf (bidChan s) ++ Bids (au s).

(** The shortest processing delay of [placeBid]. *)
Definition MinDelay : Duration := bidder.processingDelay 0.

(** [b] was computed by [calculateBid] from [attributes]. *)
Definition calculated (attributes : list float) (b : Bid) : Prop :=
  exists weights f,
    unit_draws NumAttributes weights /\ unit_draw f = true /\
    Amount b = bidder.calculateBid attributes weights f.

(** What holds of the bidders, goroutines and bids in every state of a run
    over [bidders] with timeout [timeout]. *)
Definition wf (bidders : list bidder.Bidder) (timeout : Duration) (s : state)
  : Prop :=
  TimeoutMs (au s) = Milliseconds timeout /\
  (forall b, In b (bids_of s) ->
     StartTime (au s) + MinDelay <= Timestamp b <= now s) /\
  (forall p, In p (placing s) -> StartTime (au s) + MinDelay <= snd p) /\
  (forall b, In b (bids_of s) -> calculated (Attributes (au s)) b) /\
  match pc s with
  | Created =>
      pending s = bidders /\ placing s = [] /\ bids_of s = []
  | Started =>
      pending s = bidders /\ placing s = [] /\ bids_of s = [] /\
      unit_draws NumAttributes (Attributes (au s))
  | Notifying | Waiting | ChanClosed =>
      unit_draws NumAttributes (Attributes (au s)) /\
      cap (bidChan s) = BidChanCap
  | Closed =>
      unit_draws NumAttributes (Attributes (au s)) /\
      cap (bidChan s) = BidChanCap /\
      forall b, In b (Bids (au s)) -> Timestamp b <= EndTime (au s)
  end.

End provenance.

(** ** Go's [int] and [time.Time.Sub] *)

(** A 64-bit signed integer: the value that an [int] or [int64] operation
    with the exact result [z] yields. *)
Definition wrap64 (z : Z) : Z := (z + 2 ^ 63) mod 2 ^ 64 - 2 ^ 63.

(** [x + y] on [int]. *)
Definition int_add (x y : Z) : Z := wrap64 (x + y).

Definition minDuration : Duration := - 2 ^ 63.
Definition maxDuration : Duration := 2 ^ 63 - 1.

(** [t.Sub(u)]: the duration [t - u], or the minimum or maximum duration
    when [t - u] does not fit. *)
Definition Sub (t u : Time) : Duration :=
  if t - u <? minDuration then minDuration
  else if maxDuration <? t - u then maxDuration
  else t - u.

(** [float64(n)] for an [int]: the nearest binary64 value. *)
Definition float64_of_int (n : Z) : float :=
  if n =? - 2 ^ 63 then (-9223372036854775808)%float
  else if n <? 0 then PrimFloat.opp (PrimFloat.of_uint63 (Uint63.of_Z (- n)))
  else PrimFloat.of_uint63 (Uint63.of_Z n).

(** ** Package [manager]: the execution summary ([output.go])

    The record that [WriteSummary] marshals; creating the directory and
    writing the file are left out. *)
Module output.

(** The loop of [WriteSummary] and of [PrintSummary]:
    [totalBids += auction.TotalBids] and, when [auction.TotalBids == 0],
    [auctionsWithNoBids++]. *)
Fixpoint tally (auctions : list Auction) (totalBids auctionsWithNoBids : Z)
  : Z * Z :=
  match auctions with
  | [] => (totalBids, auctionsWithNoBids)
  | a :: rest =>
      tally rest (int_add totalBids (TotalBids a))
            (if TotalBids a =? 0 then int_add auctionsWithNoBids 1
             else auctionsWithNoBids)
  end.

(** [avgBidsPerAuction]: 0.0 unless [len(auctions) > 0]. *)
Definition average (totalBids : Z) (n : nat) : float :=
  match n with
  | O => 0%float
  | S _ => (float64_of_int totalBids / float64_of_int (Z.of_nat n))%float
  end.

Record ResourceProfile := mkResourceProfile {
  MaxCPUs : Z;
  PeakMemoryMB : float;
  AvgGoroutines : Z
}.

Record Statistics := mkStatistics {
  TotalBids : Z;
  AvgBidsPerAuction : float;
  AuctionsWithNoBids : Z
}.

Record ExecutionSummary := mkExecutionSummary {
  TotalAuctions : Z;
  FirstAuctionStart : Time;
  LastAuctionEnd : Time;
  TotalExecutionTimeMs : Z;
  Profile : ResourceProfile;
  Stats : Statistics
}.

(** The [summary] value of [WriteSummary]. *)
Definition summary (auctions : list Auction) (firstStart lastEnd : Time)
    (maxCPUs : Z) (peakMemoryMB : float) (avgGoroutines : Z)
  : ExecutionSummary :=
  let '(totalBids, auctionsWithNoBids) := tally auctions 0 0 in
  {| TotalAuctions := Z.of_nat (length auctions);
     FirstAuctionStart := firstStart;
     LastAuctionEnd := lastEnd;
     TotalExecutionTimeMs := Milliseconds (Sub lastEnd firstStart);
     Profile := {| MaxCPUs := maxCPUs; PeakMemoryMB := peakMemoryMB;
                   AvgGoroutines := avgGoroutines |};
     Stats := {| TotalBids := totalBids;
                 AvgBidsPerAuction := average totalBids (length auctions);
                 AuctionsWithNoBids := auctionsWithNoBids |} |}.

End output.

(** ** Package [resource]: the getters of the monitor *)
Module resource.

Record Sample := mkSample {
  Timestamp : Time;
  MemoryMB : float;
  NumGoroutines : Z
}.

(** The monitor: its samples, whether the ticker runs, and whether
    [stopChan] is closed.  The mutex has no field: every access to
    [samples] holds it. *)
Record Monitor := mkMonitor {
  startTime : Time;
  samples : list Sample;
  ticking : bool;
  stopped : bool
}.

Definition NewMonitor : Monitor :=
  {| startTime := zeroTime; samples := []; ticking := false;
     stopped := false |}.

(** [Start], called at instant [t]: the ticker runs. *)
Definition Start (m : Monitor) (t : Time) : Monitor :=
  {| startTime := t; samples := samples m; ticking := true;
     stopped := stopped m |}.

(** [takeSample], for the sample read from the runtime. *)
Definition takeSample (m : Monitor) (sample : Sample) : Monitor :=
  {| startTime := startTime m; samples := samples m ++ [sample];
     ticking := ticking m; stopped := stopped m |}.

(** [Stop]: the ticker is stopped if there is one, [stopChan] is closed, and
    one final sample is taken.  Closing the closed channel panics: [None]. *)
Definition Stop (m : Monitor) (sample : Sample) : option Monitor :=
  if stopped m then None
  else Some (takeSample {| startTime := startTime m; samples := samples m;
                           ticking := false; stopped := true |} sample).

(** One iteration of the loop of [GetPeakMemoryMB]. *)
Definition higher (peak : float) (s : Sample) : float :=
  if F64.gt (MemoryMB s) peak then MemoryMB s else peak.

Definition GetPeakMemoryMB (m : Monitor) : float :=
  match samples m with
  | [] => 0%float
  | s0 :: _ => fold_left higher (samples m) (MemoryMB s0)
  end.

(** The loop of [GetAvgGoroutines]: [total += s.NumGoroutines]. *)
Definition total_goroutines (l : list Sample) : Z :=
  fold_left (fun total s => int_add total (NumGoroutines s)) l 0.

(** [total / len(m.samples)], the quotient truncated toward zero; 0 without
    samples. *)
Definition GetAvgGoroutines (m : Monitor) : Z :=
  match samples m with
  | [] => 0
  | _ :: _ => Z.quot (total_goroutines (samples m))
                     (Z.of_nat (length (samples m)))
  end.

End resource.

(** ** What the summary counts *)
Module counts.

(** The sum of the total-bid counts of the auctions. *)
Definition sum_bids (auctions : list Auction) : Z :=
  fold_right Z.add 0 (map TotalBids auctions).

(** The number of auctions whose total-bid count is zero. *)
Definition no_bids (auctions : list Auction) : Z :=
  Z.of_nat (length (filter (fun a => TotalBids a =? 0) auctions)).

(** The sum of the goroutine counts of the samples. *)
Definition sum_goroutines (l : list resource.Sample) : Z :=
  fold_right Z.add 0 (map resource.NumGoroutines l).

End counts.

(** * Facts *)

Module F64Facts.
Import F64.

Lemma lex_spec (k1 k2 : Z * Z * Z) :
  match lex k1 k2 with
  | Lt => let '(a1, b1, c1) := k1 in let '(a2, b2, c2) := k2 in
          a1 < a2 \/ (a1 = a2 /\ (b1 < b2 \/ (b1 = b2 /\ c1 < c2)))
  | Eq => k1 = k2
  | Gt => let '(a1, b1, c1) := k1 in let '(a2, b2, c2) := k2 in
          a2 < a1 \/ (a1 = a2 /\ (b2 < b1 \/ (b1 = b2 /\ c2 < c1)))
  end.
Proof.
  destruct k1 as [[a1 b1] c1], k2 as [[a2 b2] c2]; unfold lex.
  destruct (Z.compare_spec a1 a2); [|lia..].
  destruct (Z.compare_spec b1 b2); [|lia..].
  destruct (Z.compare_spec c1 c2); [congruence|lia..].
Qed.

Lemma SFcompare_rank (f1 f2 : spec_float) :
  sf_nan f1 = false -> sf_nan f2 = false ->
  SFcompare f1 f2 = Some (lex (rank f1) (rank f2)).
Proof.
  destruct f1 as [s1|s1| |s1 m1 e1], f2 as [s2|s2| |s2 m2 e2];
    try discriminate; intros _ _;
    try destruct s1; try destruct s2; try reflexivity.
  cbn [SFcompare rank lex]. rewrite Z.compare_refl, Z.compare_opp.
  rewrite (Z.compare_antisym e1 e2).
  destruct (e1 ?= e2); reflexivity.
Qed.

Lemma lex_refl k : lex k k = Eq.
Proof. destruct k as [[a b] c]; unfold lex; now rewrite !Z.compare_refl. Qed.

Lemma is_nan_spec x : is_nan x = sf_nan (Prim2SF x).
Proof.
  unfold is_nan. rewrite eqb_spec. unfold SFeqb.
  destruct (sf_nan (Prim2SF x)) eqn:E.
  - destruct (Prim2SF x); try discriminate; reflexivity.
  - now rewrite SFcompare_rank, lex_refl.
Qed.

Lemma gt_rank x y :
  is_nan x = false -> is_nan y = false ->
  gt x y = match lex (rk y) (rk x) with Lt => true | _ => false end.
Proof.
  rewrite !is_nan_spec; intros Hx Hy.
  unfold gt. rewrite ltb_spec. unfold SFltb. now rewrite SFcompare_rank.
Qed.

Lemma eq_rank x y :
  is_nan x = false -> is_nan y = false ->
  eq x y = match lex (rk x) (rk y) with Eq => true | _ => false end.
Proof.
  rewrite !is_nan_spec; intros Hx Hy.
  unfold eq. rewrite eqb_spec. unfold SFeqb. now rewrite SFcompare_rank.
Qed.

Lemma ge_rank x y :
  is_nan x = false -> is_nan y = false ->
  ge x y = match lex (rk y) (rk x) with Gt => false | _ => true end.
Proof.
  rewrite !is_nan_spec; intros Hx Hy.
  unfold ge. rewrite leb_spec. unfold SFleb. now rewrite SFcompare_rank.
Qed.

(** Decides a goal about [gt], [eq] and [ge] on floats that are not NaN by
    going to ranks and linear arithmetic. *)
Ltac lex_case k1 k2 :=
  let H := fresh "L" in
  pose proof (lex_spec k1 k2) as H; destruct (lex k1 k2); cbn beta iota in H.

Ltac by_rank :=
  repeat match goal with
  | |- context [gt ?x ?y] => rewrite (gt_rank x y) by assumption
  | |- context [eq ?x ?y] => rewrite (eq_rank x y) by assumption
  | |- context [ge ?x ?y] => rewrite (ge_rank x y) by assumption
  end;
  repeat match goal with
  | |- context [rk ?x] => generalize (rk x); intros [[? ?] ?]
  end;
  repeat match goal with
  | |- context [lex ?k1 ?k2] => lex_case k1 k2
  end;
  intros;
  repeat match goal with
  | H : (_, _, _) = (_, _, _) |- _ => injection H as ? ? ?
  end;
  try reflexivity; try discriminate; try (exfalso; lia).

Section Order.
Variables x y z : float.
Hypothesis Hx : is_nan x = false.
Hypothesis Hy : is_nan y = false.
Hypothesis Hz : is_nan z = false.

Lemma ge_refl : ge x x = true.
Proof. by_rank. Qed.

Lemma not_gt_ge : gt x y = false -> ge y x = true.
Proof. by_rank. Qed.

Lemma ge_trans : ge x y = true -> ge y z = true -> ge x z = true.
Proof. by_rank. Qed.

Lemma gt_irrefl_real : gt x x = false.
Proof. by_rank. Qed.

Lemma gt_above : gt x y = true -> gt z y = false -> gt z x = false.
Proof. by_rank. Qed.

Lemma gt_above_eq : gt x y = true -> gt z y = false -> eq z x = false.
Proof. by_rank. Qed.

Lemma eq_above : eq x y = true -> gt z y = false -> gt z x = false.
Proof. by_rank. Qed.

Lemma eq_chain : eq z x = true -> eq x y = true -> eq z y = true.
Proof. by_rank. Qed.
End Order.

(** Comparisons with NaN are false. *)
Lemma SFcompare_nan_l f : sf_nan f = true -> forall g, SFcompare f g = None.
Proof. destruct f; try discriminate. reflexivity. Qed.

Lemma SFcompare_nan_r g : sf_nan g = true -> forall f, SFcompare f g = None.
Proof. destruct g; try discriminate. intros _ [ | | |]; reflexivity. Qed.

Lemma gt_nan_l x y : is_nan x = true -> gt x y = false.
Proof.
  rewrite is_nan_spec; intros H. unfold gt. rewrite ltb_spec. unfold SFltb.
  now rewrite SFcompare_nan_r.
Qed.

Lemma gt_nan_r x y : is_nan y = true -> gt x y = false.
Proof.
  rewrite is_nan_spec; intros H. unfold gt. rewrite ltb_spec. unfold SFltb.
  now rewrite SFcompare_nan_l.
Qed.

Lemma eq_nan_l x y : is_nan x = true -> eq x y = false.
Proof.
  rewrite is_nan_spec; intros H. unfold eq. rewrite eqb_spec. unfold SFeqb.
  now rewrite SFcompare_nan_l.
Qed.

Lemma eq_nan_r x y : is_nan y = true -> eq x y = false.
Proof.
  rewrite is_nan_spec; intros H. unfold eq. rewrite eqb_spec. unfold SFeqb.
  now rewrite SFcompare_nan_r.
Qed.

Lemma gt_real x y : gt x y = true -> is_nan x = false /\ is_nan y = false.
Proof.
  intros H. split.
  - destruct (is_nan x) eqn:E; [|reflexivity].
    rewrite gt_nan_l in H by assumption. discriminate.
  - destruct (is_nan y) eqn:E; [|reflexivity].
    rewrite gt_nan_r in H by assumption. discriminate.
Qed.

Lemma eq_real x y : eq x y = true -> is_nan x = false /\ is_nan y = false.
Proof.
  intros H. split.
  - destruct (is_nan x) eqn:E; [|reflexivity].
    rewrite eq_nan_l in H by assumption. discriminate.
  - destruct (is_nan y) eqn:E; [|reflexivity].
    rewrite eq_nan_r in H by assumption. discriminate.
Qed.

Lemma gt_irrefl x : gt x x = false.
Proof.
  destruct (is_nan x) eqn:E; [now apply gt_nan_l|now apply gt_irrefl_real].
Qed.

End F64Facts.

(** ** Winner resolution *)

Section Winner.
Import F64Facts.

Lemma real_amounts_In l b : real_amounts l -> In b l -> is_nan (Amount b) = false.
Proof. unfold real_amounts; rewrite Forall_forall; auto. Qed.

Lemma best_singleton b : best [b] b.
Proof.
  repeat split.
  - now left.
  - intros b' [<-|[]]. apply gt_irrefl.
  - intros b' [<-|[]] _. lia.
Qed.

Lemma pick_best l w b : best l w -> best (l ++ [b]) (pick w b).
Proof.
  intros (Hin & Hmax & Hearly). unfold pick.
  destruct (F64.gt (Amount b) (Amount w)) eqn:Hgt.
  - (* a strictly higher bid *)
    destruct (gt_real _ _ Hgt) as [Hb Hw].
    repeat split.
    + apply in_or_app; right; now left.
    + intros c Hc. apply in_app_or in Hc as [Hc|[<-|[]]];
        [|apply gt_irrefl].
      destruct (is_nan (Amount c)) eqn:Ec; [now apply gt_nan_l|].
      apply gt_above with (y := Amount w); auto.
    + intros c Hc Heq. apply in_app_or in Hc as [Hc|[<-|[]]]; [|lia].
      destruct (eq_real _ _ Heq) as [Ec _].
      rewrite (gt_above_eq (Amount b) (Amount w) (Amount c)) in Heq; auto.
      discriminate.
  - destruct (F64.eq (Amount b) (Amount w)) eqn:Heq; cbn [andb].
    + destruct (eq_real _ _ Heq) as [Hb Hw].
      destruct (Before (Timestamp b) (Timestamp w)) eqn:Hts.
      * (* same amount, earlier timestamp *)
        unfold Before in Hts. apply Z.ltb_lt in Hts.
        repeat split.
        -- apply in_or_app; right; now left.
        -- intros c Hc. apply in_app_or in Hc as [Hc|[<-|[]]];
             [|apply gt_irrefl].
           destruct (is_nan (Amount c)) eqn:Ec; [now apply gt_nan_l|].
           apply eq_above with (y := Amount w); auto.
        -- intros c Hc Hcb. apply in_app_or in Hc as [Hc|[<-|[]]]; [|lia].
           destruct (eq_real _ _ Hcb) as [Ec _].
           assert (F64.eq (Amount c) (Amount w) = true)
             by (apply eq_chain with (x := Amount b); auto).
           specialize (Hearly c Hc H). lia.
      * (* same amount, not earlier *)
        unfold Before in Hts. apply Z.ltb_ge in Hts.
        repeat split.
        -- apply in_or_app; now left.
        -- intros c Hc. apply in_app_or in Hc as [Hc|[<-|[]]]; auto.
        -- intros c Hc Hcw. apply in_app_or in Hc as [Hc|[<-|[]]]; auto.
    + (* a bid that is neither higher nor equal *)
      repeat split.
      * apply in_or_app; now left.
      * intros c Hc. apply in_app_or in Hc as [Hc|[<-|[]]]; auto.
      * intros c Hc Hcw. apply in_app_or in Hc as [Hc|[<-|[]]]; auto.
        congruence.
Qed.

Lemma fold_pick_best rest : forall l w,
  best l w -> best (l ++ rest) (fold_left pick rest w).
Proof.
  induction rest as [|b rest IH]; intros l w Hbest; cbn [fold_left].
  - now rewrite app_nil_r.
  - replace (l ++ b :: rest) with ((l ++ [b]) ++ rest)
      by now rewrite <- app_assoc.
    apply IH. now apply pick_best.
Qed.

Lemma highest_best bids :
  bids <> [] -> exists w, highest bids = Some w /\ best bids w.
Proof.
  destruct bids as [|b0 rest]; [congruence|]; intros _.
  exists (fold_left pick rest b0); split; [reflexivity|].
  apply (fold_pick_best rest [b0] b0), best_singleton.
Qed.

Lemma highest_In bids w : highest bids = Some w -> In w bids.
Proof.
  destruct bids as [|b0 rest]; [discriminate|]. intros H.
  destruct (highest_best (b0 :: rest)) as (w' & Hw' & Hin & _); congruence.
Qed.

End Winner.

(** C1.  On an auction with at least one bid, [DetermineWinner] sets the
    winner to a bid of the auction that no bid exceeds in amount and that no
    bid of the same amount precedes in time.  Amounts being real numbers
    (none is NaN), the winner's amount is greater than or equal to the amount
    of every bid. *)
Theorem DetermineWinner_highest_earliest (a : Auction) :
  Bids a <> [] ->
  exists w,
    Winner (DetermineWinner a) = Some w /\
    In w (Bids a) /\
    (forall b, In b (Bids a) -> F64.gt (Amount b) (Amount w) = false) /\
    (forall b, In b (Bids a) -> F64.eq (Amount b) (Amount w) = true ->
               Before (Timestamp b) (Timestamp w) = false
               /\ Timestamp w <= Timestamp b) /\
    (real_amounts (Bids a) ->
     forall b, In b (Bids a) -> F64.ge (Amount w) (Amount b) = true).
Proof.
  intros Hne.
  destruct (highest_best (Bids a) Hne) as (w & Hw & Hin & Hmax & Hearly).
  exists w; split; [exact Hw|]. split; [exact Hin|]. split; [exact Hmax|].
  split.
  - intros b Hb Heq. specialize (Hearly b Hb Heq).
    split; [|exact Hearly]. unfold Before. now apply Z.ltb_ge.
  - intros Hreal b Hb.
    apply F64Facts.not_gt_ge; eauto using real_amounts_In.
Qed.

(** Three bids, the two highest tied: the later-arrived, earlier-stamped one
    wins. *)
Example DetermineWinner_tie :
  Winner (DetermineWinner
    (AddBid (AddBid (AddBid (NewAuction 1 (5 * Second))
       (mkBid 7 100.5 30)) (mkBid 8 250 20)) (mkBid 9 250 10)))
  = Some (mkBid 9 250 10).
Proof. reflexivity. Qed.

Lemma DetermineWinner_highest_earliest_witness :
  let a := AddBid (AddBid (AddBid (NewAuction 1 (5 * Second))
             (mkBid 7 100.5 30)) (mkBid 8 250 20)) (mkBid 9 250 10) in
  exists w,
    Winner (DetermineWinner a) = Some w /\
    In w (Bids a) /\
    (forall b, In b (Bids a) -> F64.gt (Amount b) (Amount w) = false) /\
    (forall b, In b (Bids a) -> F64.eq (Amount b) (Amount w) = true ->
               Before (Timestamp b) (Timestamp w) = false
               /\ Timestamp w <= Timestamp b) /\
    (real_amounts (Bids a) ->
     forall b, In b (Bids a) -> F64.ge (Amount w) (Amount b) = true).
Proof.
  apply DetermineWinner_highest_earliest. discriminate.
Defined.

(** C2.  After [DetermineWinner], the total-bid count is the length of the
    bid sequence, the winner is nil exactly when the bid sequence is empty,
    and a winner that is present is an element of the bid sequence. *)
Theorem DetermineWinner_invariant (a : Auction) :
  let a' := DetermineWinner a in
  TotalBids a' = Z.of_nat (length (Bids a')) /\
  (Winner a' = None <-> Bids a' = []) /\
  (forall w, Winner a' = Some w -> In w (Bids a')).
Proof.
  cbn. split; [reflexivity|]. split.
  - destruct (Bids a); cbn; split; congruence.
  - apply highest_In.
Qed.

(** C10.  [DetermineWinner] is idempotent, and the winner and total-bid count
    it sets are functions of the bid sequence alone: a second call changes
    nothing, and two auctions with the same bids get the same winner and
    count. *)
Theorem DetermineWinner_idempotent (a : Auction) :
  DetermineWinner (DetermineWinner a) = DetermineWinner a /\
  Winner (DetermineWinner (DetermineWinner a)) = Winner (DetermineWinner a) /\
  TotalBids (DetermineWinner (DetermineWinner a))
    = TotalBids (DetermineWinner a) /\
  (forall a2, Bids a2 = Bids a ->
     Winner (DetermineWinner a2) = Winner (DetermineWinner a) /\
     TotalBids (DetermineWinner a2) = TotalBids (DetermineWinner a)).
Proof.
  repeat split; cbn; congruence.
Qed.

(** ** Global bounds *)

Lemma bounds_loop_spec rs : forall fs le,
  let r := manager.bounds_loop rs fs le in
  fst r <= fs /\ le <= snd r /\
  (forall a, In a rs -> fst r <= StartTime a /\ EndTime a <= snd r) /\
  (fst r = fs \/ exists a, In a rs /\ StartTime a = fst r) /\
  (snd r = le \/ exists a, In a rs /\ EndTime a = snd r).
Proof.
  induction rs as [|a rs IH]; intros fs le; cbn [manager.bounds_loop].
  - cbn; repeat split; try lia; try tauto.
  - set (fs' := if Before (StartTime a) fs then StartTime a else fs).
    set (le' := if After (EndTime a) le then EndTime a else le).
    specialize (IH fs' le'). cbn zeta in IH |- *.
    destruct IH as (Hf & Hl & Hall & Hf' & Hl').
    assert (Hfs : fs' <= fs /\ fs' <= StartTime a /\
                  (fs' = fs \/ fs' = StartTime a)).
    { subst fs'; unfold Before. destruct (Z.ltb_spec (StartTime a) fs); lia. }
    assert (Hle : le <= le' /\ EndTime a <= le' /\
                  (le' = le \/ le' = EndTime a)).
    { subst le'; unfold After. destruct (Z.ltb_spec le (EndTime a)); lia. }
    split; [lia|]. split; [lia|]. split; [|split].
    + intros b [<-|Hb]; [lia|]. now apply Hall.
    + destruct Hf' as [E|(b & Hb & E)].
      * destruct Hfs as (_ & _ & [E'|E']); [left; congruence|].
        right; exists a; split; [now left|congruence].
      * right; exists b; split; [now right|assumption].
    + destruct Hl' as [E|(b & Hb & E)].
      * destruct Hle as (_ & _ & [E'|E']); [left; congruence|].
        right; exists a; split; [now left|congruence].
      * right; exists b; split; [now right|assumption].
Qed.

Lemma bounds_spec rs :
  rs <> [] ->
  (forall a, In a rs ->
     fst (manager.bounds rs) <= StartTime a /\
     EndTime a <= snd (manager.bounds rs)) /\
  (exists a, In a rs /\ StartTime a = fst (manager.bounds rs)) /\
  (exists a, In a rs /\ EndTime a = snd (manager.bounds rs)).
Proof.
  destruct rs as [|a0 rs]; [congruence|]; intros _.
  unfold manager.bounds.
  destruct (bounds_loop_spec (a0 :: rs) (StartTime a0) (EndTime a0))
    as (_ & _ & Hall & Hf & Hl).
  split; [exact Hall|]. split.
  - destruct Hf as [E|H]; [|exact H]. exists a0; split; [now left|congruence].
  - destruct Hl as [E|H]; [|exact H]. exists a0; split; [now left|congruence].
Qed.

(** ** Processing delay *)

(** C5.  The processing delay of [placeBid] is a whole number of
    milliseconds between 10 and 499: every such value is drawn for some value
    of [rand.Intn(490)], and 500 ms never is. *)
Theorem processingDelay_range :
  (forall r, Intn_draw 490 r ->
     exists ms, bidder.processingDelay r = ms * Millisecond /\
                10 <= ms <= 499) /\
  (forall ms, 10 <= ms <= 499 ->
     exists r, Intn_draw 490 r /\
               bidder.processingDelay r = ms * Millisecond) /\
  (forall r, Intn_draw 490 r ->
     bidder.processingDelay r <> 500 * Millisecond).
Proof.
  unfold bidder.processingDelay, Intn_draw, Millisecond. repeat split.
  - intros r Hr. exists (10 + r). lia.
  - intros ms Hms. exists (ms - 10). split; [lia|]. f_equal; lia.
  - intros r Hr. lia.
Qed.

(** The longest delay: [rand.Intn(490)] returns at most 489. *)
Example processingDelay_max : bidder.processingDelay 489 = 499 * Millisecond.
Proof. reflexivity. Qed.

(** ** One run of an auction *)

Module auctionFacts.
Import auction.

Lemma reachable_trans s0 s1 s2 :
  reachable s0 s1 -> reachable s1 s2 -> reachable s0 s2.
Proof.
  intros H01 H12. induction H12; [assumption|].
  eapply reach_step; eassumption.
Qed.

Lemma reachable_first s0 s1 s2 :
  step s0 s1 -> reachable s1 s2 -> reachable s0 s2.
Proof.
  intros H01. apply reachable_trans.
  eapply reach_step; [apply reach_init|exact H01].
Qed.

(** Proof rule for invariants of the step relation. *)
Lemma invariant (P : state -> Prop) s0 :
  P s0 -> (forall s s', P s -> step s s' -> P s') ->
  forall s, reachable s0 s -> P s.
Proof.
  intros H0 Hstep s Hs. induction Hs; [assumption|].
  eapply Hstep; eassumption.
Qed.

Lemma try_send_Sent {A} (c c' : Chan A) v :
  try_send c v = Sent c' ->
  closed c = false /\ (length (buf c) < cap c)%nat /\
  c' = mkChan (buf c ++ [v]) (cap c) false.
Proof.
  unfold try_send. destruct (closed c); [discriminate|].
  destruct (Nat.ltb_spec (length (buf c)) (cap c)); [|discriminate].
  intros [= <-]. auto.
Qed.

Lemma try_send_closed {A} (c : Chan A) v :
  closed c = true -> try_send c v = SendPanic.
Proof. unfold try_send. now intros ->. Qed.

Ltac count_ids :=
  unfold ids; cbn [pending placing bidChan au buf Bids AddBid set_EndTime
                   set_StartTime set_Attributes DetermineWinner make_chan
                   close_chan map fst bidder.ID BidderID];
  repeat match goal with
  | H : _ = _ :> list _ |- _ => rewrite H in *
  end;
  rewrite ?map_app, ?count_occ_app in *;
  cbn [map count_occ fst BidderID] in *;
  rewrite ?count_occ_app in *;
  cbn [map count_occ fst BidderID] in *;
  repeat match goal with
  | |- context [Z.eq_dec ?a ?b] => destruct (Z.eq_dec a b)
  | H : context [Z.eq_dec ?a ?b] |- _ => destruct (Z.eq_dec a b)
  end;
  try lia.

Lemma step_ids s s' :
  step s s' -> forall x,
  (count_occ Z.eq_dec (ids s') x <= count_occ Z.eq_dec (ids s) x)%nat.
Proof.
  intros Hstep x.
  destruct Hstep;
    try match goal with
    | H : try_send _ _ = Sent _ |- _ =>
        apply try_send_Sent in H as (_ & _ & ->)
    end;
    count_ids.
Qed.

Lemma NoDup_ids s0 s :
  NoDup (ids s0) -> reachable s0 s -> NoDup (ids s).
Proof.
  intros H0 Hs. revert s Hs. apply invariant; [assumption|].
  intros s s' IH Hstep.
  rewrite (NoDup_count_occ Z.eq_dec) in *. intros x.
  pose proof (step_ids s s' Hstep x). specialize (IH x). lia.
Qed.

Lemma timing_init t0 auctionID timeout bidders :
  timing auctionID timeout (init t0 auctionID timeout bidders).
Proof.
  unfold timing.
  cbn [init pc au deadline fired bidChan NewAuction ID Timeout make_chan closed
       loop].
  repeat split.
Qed.

Ltac timing_simpl :=
  unfold timing, deadline_ok in *;
  cbn [now pc au deadline fired loop bidChan closed close_chan make_chan
       ID Timeout StartTime EndTime Winner TotalBids Bids
       AddBid set_EndTime set_StartTime set_Attributes DetermineWinner] in *.

Lemma timing_step auctionID timeout s s' :
  timing auctionID timeout s -> step s s' -> timing auctionID timeout s'.
Proof.
  intros Hinv Hstep.
  destruct Hstep;
    try match goal with
    | H : try_send _ _ = Sent _ |- _ =>
        let Hc := fresh "Hc" in
        apply try_send_Sent in H as (Hc & _ & ->)
    end;
    timing_simpl;
    repeat match goal with
    | H : pc _ = _ |- _ => rewrite H in *
    | H : deadline _ = _ |- _ => rewrite H in *
    | H : fired _ = _ |- _ => rewrite H in *
    | H : loop _ = _ |- _ => rewrite H in *
    end;
    try (destruct (pc s)); try (destruct (deadline s));
    try (destruct (fired s) eqn:?); try (destruct (loop s) eqn:?);
    intuition (try discriminate; try congruence; try lia).
Qed.

Lemma timing_reachable t0 auctionID timeout bidders s :
  reachable (init t0 auctionID timeout bidders) s ->
  timing auctionID timeout s.
Proof.
  apply invariant; [apply timing_init|].
  intros; eapply timing_step; eassumption.
Qed.

(** *** Executions by actions are executions of the step relation *)

Lemma unit_drawsb_spec n l : unit_drawsb n l = true -> unit_draws n l.
Proof.
  unfold unit_drawsb, unit_draws. intros H.
  apply andb_prop in H as [Hlen Hall]. split.
  - now apply Nat.eqb_eq.
  - apply Forall_forall. now apply forallb_forall.
Qed.

Lemma nth_error_firstn_skipn {A} (l : list A) : forall k x,
  nth_error l k = Some x -> l = firstn k l ++ x :: skipn (S k) l.
Proof.
  induction l as [|y l IH]; intros [|k] x H; try discriminate.
  - now injection H as ->.
  - cbn [firstn skipn app]. f_equal. now apply IH.
Qed.

Lemma exec1_sound s a s' : exec1 s a = Some s' -> step s s'.
Proof.
  unfold exec1. destruct (panicked s) eqn:Hp; [discriminate|].
  destruct a.
  - destruct (Z.leb_spec (now s) t); [|discriminate].
    intros [= <-]. now apply tick.
  - destruct (pc s) eqn:Hpc; try discriminate.
    destruct (unit_drawsb NumAttributes attrs) eqn:Hd; [|discriminate].
    intros [= <-]. apply start; auto using unit_drawsb_spec.
  - destruct (pc s) eqn:Hpc; try discriminate.
    intros [= <-]. now apply open.
  - destruct (deadline s) as [d|] eqn:Hd; [|discriminate].
    destruct (Z.leb_spec d (now s)); [|discriminate].
    intros [= <-]. rewrite <- Hd. now apply fire with (d := d).
  - destruct (pc s) eqn:Hpc; try discriminate.
    destruct (pending s) as [|b rest] eqn:Hpe; [discriminate|].
    destruct (unit_draw r) eqn:Hr; [|discriminate].
    destruct (bidder.participates b r) eqn:Hb.
    + destruct (Z.leb_spec 0 n); [|discriminate].
      destruct (Z.ltb_spec n 490); [|discriminate].
      intros [= <-]. rewrite <- Hpc.
      apply spawn with (r := r); auto. split; assumption.
    + intros [= <-]. rewrite <- Hpc. now apply skip with (b := b) (r := r).
  - destruct (pc s) eqn:Hpc; try discriminate.
    destruct (pending s) eqn:Hpe; [|discriminate].
    intros [= <-]. now apply notified.
  - destruct (nth_error (placing s) k) as [[b wake]|] eqn:Hk; [|discriminate].
    destruct (Z.leb_spec wake (now s)); [|discriminate].
    destruct (unit_drawsb NumAttributes weights) eqn:Hw; [|discriminate].
    destruct (unit_draw f) eqn:Hf; [|discriminate].
    cbn [andb]. apply nth_error_firstn_skipn in Hk.
    apply unit_drawsb_spec in Hw.
    destruct (try_send _ _) eqn:Hs; intros [= <-].
    + eapply place_sent; eauto.
    + eapply place_dropped; eauto.
    + eapply place_panic; eauto.
  - destruct (loop s) eqn:Hl; try discriminate.
    destruct (buf (bidChan s)) as [|bid rest] eqn:Hb; [discriminate|].
    intros [= <-]. rewrite <- Hl. now apply collect.
  - destruct (loop s) eqn:Hl; try discriminate.
    destruct (fired s) eqn:Hf; [|discriminate].
    intros [= <-]. rewrite <- Hf. now apply stop.
  - destruct (pc s) eqn:Hpc; try discriminate.
    destruct (loop s) eqn:Hl; try discriminate.
    destruct (fired s) eqn:Hf; [|discriminate].
    intros [= <-]. rewrite <- Hf, <- Hl. now apply close.
  - destruct (pc s) eqn:Hpc; try discriminate.
    intros [= <-]. now apply resolve.
Qed.

Lemma exec_sound l : forall s s', exec s l = Some s' -> reachable s s'.
Proof.
  induction l as [|a l IH]; intros s s'; cbn [exec].
  - intros [= <-]. apply reach_init.
  - destruct (exec1 s a) as [s1|] eqn:H1; [|discriminate].
    intros H. eapply reachable_first; [eapply exec1_sound; eassumption|].
    now apply IH.
Qed.

(** *** After the loop has stopped *)

Lemma step_stopped s s' :
  step s s' -> pc s = Waiting \/ pc s = ChanClosed \/ pc s = Closed ->
  loop s = Stopped ->
  (pc s' = Waiting \/ pc s' = ChanClosed \/ pc s' = Closed) /\
  loop s' = Stopped /\ Bids (au s') = Bids (au s).
Proof.
  intros Hstep Hpc Hl.
  destruct Hstep; cbn [pc loop au Bids DetermineWinner set_EndTime];
    try (repeat split; (assumption || reflexivity || tauto)).
  all: repeat match goal with
       | H : pc _ = _ |- _ => rewrite H in *
       end;
       try (destruct Hpc as [?|[?|?]]; discriminate);
       try congruence.
Qed.

Lemma reachable_stopped s s' :
  reachable s s' -> pc s = Waiting \/ pc s = ChanClosed \/ pc s = Closed ->
  loop s = Stopped ->
  (pc s' = Waiting \/ pc s' = ChanClosed \/ pc s' = Closed) /\
  loop s' = Stopped /\ Bids (au s') = Bids (au s).
Proof.
  intros Hreach Hpc Hl. induction Hreach as [|s1 s2 _ IH Hstep]; [auto|].
  destruct IH as (Hpc1 & Hl1 & Hb1).
  destruct (step_stopped _ _ Hstep Hpc1 Hl1) as (? & ? & ?).
  repeat split; auto; congruence.
Qed.

(** *** A run can always end *)

Lemma unit_draw_zero : unit_draw 0 = true.
Proof. reflexivity. Qed.

Lemma unit_draws_zeros : unit_draws NumAttributes (repeat 0%float NumAttributes).
Proof. split; [reflexivity|]. repeat constructor. Qed.

(** [notifyBidders] returns: every bidder is considered in turn. *)
Lemma notify_all l : forall s,
  panicked s = false -> pc s = Notifying -> pending s = l ->
  exists s', reachable s s' /\ panicked s' = false /\ pc s' = Notifying /\
             pending s' = [] /\ deadline s' = deadline s.
Proof.
  induction l as [|b rest IH]; intros s Hp Hpc Hl.
  - exists s. repeat split; auto. apply reach_init.
  - destruct (bidder.participates b 0) eqn:Hb.
    + pose (s1 := mkState (now s) (pc s) (au s) (deadline s) (fired s) rest
                    ((b, now s + bidder.processingDelay 0) :: placing s)
                    (bidChan s) (loop s) false).
      assert (Hstep : step s s1).
      { apply spawn with (r := 0%float); auto using unit_draw_zero.
        unfold Intn_draw; lia. }
      destruct (IH s1) as (s' & Hr & Hp' & Hpc' & Hpe' & Hd');
        [reflexivity|exact Hpc|reflexivity|].
      exists s'; repeat split; auto. eapply reachable_first; eauto.
    + pose (s1 := mkState (now s) (pc s) (au s) (deadline s) (fired s) rest
                    (placing s) (bidChan s) (loop s) false).
      assert (Hstep : step s s1).
      { apply skip with (b := b) (r := 0%float); auto using unit_draw_zero. }
      destruct (IH s1) as (s' & Hr & Hp' & Hpc' & Hpe' & Hd');
        [reflexivity|exact Hpc|reflexivity|].
      exists s'; repeat split; auto. eapply reachable_first; eauto.
Qed.

Lemma can_complete bidders auctionID timeout :
  exists a, completes bidders auctionID timeout a.
Proof.
  unfold completes.
  pose (s1 := mkState 0 Notifying
                (set_StartTime
                   (set_Attributes (NewAuction auctionID timeout)
                      (repeat 0%float NumAttributes)) 0)
                (Some (0 + timeout)) false bidders [] (make_chan BidChanCap)
                NotStarted false).
  assert (H1 : reachable (init 0 auctionID timeout bidders) s1).
  { eapply reachable_first; [apply start with (attrs := repeat 0%float NumAttributes);
                             [reflexivity|reflexivity|apply unit_draws_zeros]|].
    eapply reachable_first; [apply open; reflexivity|]. apply reach_init. }
  destruct (notify_all bidders s1 eq_refl eq_refl eq_refl)
    as (s2 & H2 & Hp2 & Hpc2 & Hpe2 & Hd2).
  cbn [s1 deadline] in Hd2.
  set (t := Z.max (now s2) (0 + timeout)).
  eexists. exists 0. eexists. split.
  - eapply reachable_trans; [exact H1|].
    eapply reachable_trans; [exact H2|].
    eapply reachable_first; [apply notified; assumption|].
    eapply reachable_first;
      [apply tick with (t := t); [reflexivity|cbn [now]; lia]|].
    eapply reachable_first;
      [apply fire with (d := 0 + timeout);
       [reflexivity|exact Hd2|cbn [now]; lia]|].
    eapply reachable_first; [apply stop; reflexivity|].
    eapply reachable_first; [apply close; reflexivity|].
    eapply reachable_first; [apply resolve; reflexivity|].
    apply reach_init.
  - split; reflexivity.
Qed.

Lemma completes_ID bidders auctionID timeout a :
  completes bidders auctionID timeout a -> ID a = auctionID.
Proof.
  intros (t0 & s & Hs & _ & <-).
  now destruct (timing_reachable _ _ _ _ _ Hs) as (? & _).
Qed.

End auctionFacts.

Section RunnerClaims.
Import auction auctionFacts.

(** C3.  Once [Run] has closed [bidChan], the submission of [placeBid] is not
    a silent no-op: the [select] picks the send, and the send on the closed
    channel panics.  The sample run in which the second bidder reaches its
    [select] after the end of the auction ends in a panic. *)
Theorem placeBid_after_close_panics :
  (forall (c : Chan Bid) (bid : Bid),
     closed c = true -> try_send c bid = SendPanic) /\
  (forall s k weights f s',
     closed (bidChan s) = true ->
     exec1 s (APlace k weights f) = Some s' -> panicked s' = true) /\
  (let s := sample.final sample.short_start sample.late_submission in
   reachable sample.short_start s /\ pc s = Closed /\ panicked s = true).
Proof.
  split; [|split].
  - intros c bid Hc. now apply try_send_closed.
  - intros s k weights f s' Hc. unfold exec1.
    destruct (panicked s); [discriminate|].
    destruct (nth_error _ _) as [[b wake]|]; [|discriminate].
    destruct (_ && _); [|discriminate].
    rewrite try_send_closed by assumption. now intros [= <-].
  - cbn zeta. split; [|split; vm_compute; reflexivity].
    apply (exec_sound sample.late_submission). vm_compute. reflexivity.
Qed.

(** C4.  The deadline is not a hard wall.  The receive of the collection
    loop stays enabled after the deadline has fired: as long as the loop has
    not taken the deadline branch, a queued bid is appended, and so is a bid
    that [placeBid] stamps and sends after the deadline.  In the sample run
    with the 10 ms timeout the bid of bidder 1 is queued when the deadline
    fires and is then appended; in the run in which bidder 1 reaches its
    [select] at 11 ms, after the deadline has fired, its bid is appended and
    wins the auction, and the auction ends at 11 ms. *)
Theorem late_bid_is_appended :
  (forall s bid rest,
     panicked s = false -> loop s = Looping -> fired s = true ->
     buf (bidChan s) = bid :: rest ->
     exists s', step s s' /\ Bids (au s') = Bids (au s) ++ [bid]) /\
  (forall s d pre b wake post,
     panicked s = false -> loop s = Looping ->
     deadline s = Some d -> d <= now s -> fired s = true ->
     closed (bidChan s) = false -> buf (bidChan s) = [] ->
     (0 < cap (bidChan s))%nat ->
     placing s = pre ++ (b, wake) :: post -> wake <= now s ->
     exists s' bid,
       reachable s s' /\ BidderID bid = bidder.ID b /\
       d <= Timestamp bid /\ Bids (au s') = Bids (au s) ++ [bid]) /\
  (let s := sample.final sample.short_start sample.until_deadline in
   let bid := mkBid 1 2575 (10 * Millisecond) in
   reachable sample.short_start s /\
   deadline s = Some (10 * Millisecond) /\ fired s = true /\
   Bids (au s) = [] /\ buf (bidChan s) = [bid] /\
   exists s', step s s' /\ Bids (au s') = [bid]) /\
  (let s := sample.final sample.short_start sample.late_winner in
   let bid := mkBid 1 2575 (11 * Millisecond) in
   reachable sample.short_start s /\ pc s = Closed /\
   StartTime (au s) = 0 /\ Timeout (au s) = 10 * Millisecond /\
   deadline s = Some (10 * Millisecond) /\
   Bids (au s) = [bid] /\ Winner (au s) = Some bid /\
   StartTime (au s) + Timeout (au s) < Timestamp bid /\
   EndTime (au s) = 11 * Millisecond).
Proof.
  split; [|split; [|split]].
  - intros s bid rest Hp Hl _ Hb. eexists. split.
    + eapply collect; eassumption.
    + reflexivity.
  - intros s d pre b wake post Hp Hl _ Hd _ Hc Hb Hcap Hpl Hw.
    set (bid := mkBid (bidder.ID b)
                  (bidder.calculateBid (Attributes (au s))
                     (repeat 0%float NumAttributes) 0) (now s)).
    pose (s1 := mkState (now s) (pc s) (au s) (deadline s) (fired s)
                  (pending s) (pre ++ post)
                  (mkChan (buf (bidChan s) ++ [bid]) (cap (bidChan s)) false)
                  (loop s) false).
    assert (H1 : step s s1).
    { eapply place_sent with (weights := repeat 0%float NumAttributes)
                             (f := 0%float);
        eauto using unit_draws_zeros, unit_draw_zero.
      unfold try_send. rewrite Hc, Hb. cbn [length].
      destruct (Nat.ltb_spec 0 (cap (bidChan s))); [reflexivity|lia]. }
    eexists. exists bid. split; [|split; [reflexivity|split; [exact Hd|]]].
    + eapply reachable_first; [exact H1|].
      eapply reachable_first; [|apply reach_init].
      eapply collect with (bid := bid) (rest := []); [reflexivity|exact Hl|].
      cbn [s1 bidChan buf]. now rewrite Hb.
    + reflexivity.
  - cbn zeta. split.
    { apply (exec_sound sample.until_deadline). vm_compute. reflexivity. }
    do 4 (split; [vm_compute; reflexivity|]).
    exists (sample.final sample.short_start
              (sample.until_deadline ++ [ACollect])).
    split.
    + apply (exec1_sound _ ACollect). vm_compute. reflexivity.
    + vm_compute. reflexivity.
  - cbn zeta. split.
    { apply (exec_sound sample.late_winner). vm_compute. reflexivity. }
    do 7 (split; [vm_compute; reflexivity|]).
    vm_compute. reflexivity.
Qed.

(** X20.  The collection loop stops only after the deadline has fired, and
    once it has stopped nothing is appended to the auction any more, whatever
    is still queued or submitted later.  When the run is over, the end
    instant is not before the start instant, and at least the timeout after
    it. *)
Theorem collection_window t0 auctionID timeout bidders s :
  reachable (init t0 auctionID timeout bidders) s ->
  (loop s = Stopped ->
     fired s = true /\
     forall s', reachable s s' -> Bids (au s') = Bids (au s)) /\
  (pc s = Closed ->
     StartTime (au s) <= EndTime (au s) /\
     StartTime (au s) + timeout <= EndTime (au s)).
Proof.
  intros Hs. pose proof (timing_reachable _ _ _ _ _ Hs) as (_ & _ & Hpc).
  split.
  - intros Hl.
    assert (Hw : (pc s = Waiting \/ pc s = ChanClosed \/ pc s = Closed)
                 /\ fired s = true).
    { destruct (pc s); rewrite ?Hl in Hpc; intuition congruence. }
    destruct Hw as [Hw Hf]. split; [exact Hf|].
    intros s' Hs'. now apply (reachable_stopped s s' Hs' Hw Hl).
  - intros Hc. rewrite Hc in Hpc. tauto.
Qed.

Lemma collection_window_witness :
  let s := sample.final (sample.start_of 1) sample.full_run in
  (loop s = Stopped ->
     fired s = true /\
     forall s', reachable s s' -> Bids (au s') = Bids (au s)) /\
  (pc s = Closed ->
     StartTime (au s) <= EndTime (au s) /\
     StartTime (au s) + manager.timeout <= EndTime (au s)).
Proof.
  apply (collection_window 0 1 manager.timeout (manager.bidders sample.mgr)).
  apply (exec_sound sample.full_run). vm_compute. reflexivity.
Defined.

Lemma NewManager_NoDup rnd :
  NoDup (map bidder.ID (manager.bidders (manager.NewManager rnd))).
Proof.
  cbn [manager.NewManager manager.bidders]. rewrite map_map.
  cbn [bidder.NewBidder bidder.ID].
  apply Finite.Injective_map_NoDup; [|apply seq_NoDup].
  intros i j H. lia.
Qed.

(** C9.  In every state of a run of an auction over the manager's bidders,
    no bidder identifier occurs twice in the auction's bid sequence. *)
Theorem one_bid_per_bidder rnd t0 auctionID timeout s :
  reachable
    (init t0 auctionID timeout (manager.bidders (manager.NewManager rnd))) s ->
  NoDup (map BidderID (Bids (au s))).
Proof.
  intros Hs. apply NoDup_ids in Hs.
  - unfold ids in Hs. now do 3 apply NoDup_app_remove_l in Hs.
  - unfold ids. cbn [init pending placing bidChan au Bids NewAuction buf
                     make_chan map].
    rewrite !app_nil_r. apply NewManager_NoDup.
Qed.

Lemma one_bid_per_bidder_witness :
  NoDup (map BidderID
           (Bids (au (sample.final (sample.start_of 1) sample.full_run)))).
Proof.
  apply (one_bid_per_bidder (fun _ => 0.5%float) 0 1 manager.timeout).
  apply (exec_sound sample.full_run). vm_compute. reflexivity.
Defined.

End RunnerClaims.

(** ** The manager *)

Module managerFacts.
Import manager.

Section Run.
Variable m : Manager.

Lemma run_reachable_trans s0 s1 s2 :
  reachable m s0 s1 -> reachable m s1 s2 -> reachable m s0 s2.
Proof.
  intros H01 H12. induction H12; [assumption|].
  eapply reach_step; eassumption.
Qed.

Lemma run_reachable_first s0 s1 s2 :
  step m s0 s1 -> reachable m s1 s2 -> reachable m s0 s2.
Proof.
  intros H01. apply run_reachable_trans.
  eapply reach_step; [apply reach_init|exact H01].
Qed.

Lemma perm_move (pre post l : list Z) i :
  Permutation ((pre ++ post) ++ l ++ [i]) ((pre ++ i :: post) ++ l).
Proof.
  rewrite <- !app_assoc. apply Permutation_app_head. cbn [app].
  rewrite app_assoc. apply Permutation_sym, Permutation_cons_append.
Qed.

Lemma inv_init : inv m init.
Proof.
  unfold inv, emitted, started; cbn. repeat split; auto; try lia.
Qed.

Ltac inv_simpl :=
  unfold inv, emitted, started in *;
  cbn [pc wg running sent cl results auctionResults firstStart lastEnd
       panicked buf cap closed close_chan] in *.

Lemma inv_step s s' : inv m s -> step m s s' -> inv m s'.
Proof.
  intros (Hcap & Hwg & Hperm & Hcomp & Hpc) Hstep.
  destruct Hstep; inv_simpl;
    try (repeat split; assumption);
    repeat match goal with
    | H : pc _ = _ |- _ => rewrite H in *
    | H : running _ = _ |- _ => rewrite H in *
    | H : sent _ = _ |- _ => rewrite H in *
    | H : buf _ = _ |- _ => rewrite H in *
    | H : cl _ = _ |- _ => rewrite H in *
    | H : closed _ = _ |- _ => rewrite H in *
    end.
  - (* launch *)
    destruct Hpc as ([Hi1 Hi2] & Hcl & Hclosed).
    destruct i as [|n]; [lia|].
    replace (S n - 1)%nat with n in Hperm by lia.
    replace (S (S n) - 1)%nat with (S n) by lia.
    repeat split; auto; try lia.
    + cbn [length]. lia.
    + rewrite seq_S, (map_app Z.of_nat). cbn [map Nat.add].
      apply Permutation_cons_app. now rewrite app_nil_r.
  - (* launched *)
    destruct Hpc as ([Hi1 Hi2] & Hcl & Hclosed).
    assert (i = S NumAuctions) by lia; subst i.
    replace (S NumAuctions - 1)%nat with NumAuctions in Hperm by lia.
    repeat split; auto.
  - (* emit *)
    assert (Hid : ID a = i) by (eapply auctionFacts.completes_ID; eassumption).
    repeat split; auto.
    + rewrite length_app in *. cbn [length] in *. lia.
    + rewrite <- Hperm.
      rewrite (app_assoc (auctionResults s)), (map_app ID _ [a]).
      cbn [map]. rewrite Hid. apply perm_move.
    + intros a' Ha'. rewrite app_assoc in Ha'.
      apply in_app_or in Ha' as [Ha'|[<-|[]]]; [now apply Hcomp|].
      now rewrite Hid.
    + destruct (pc s); intuition congruence.
  - (* emit on a closed channel *)
    exfalso. destruct (pc s).
    + destruct Hpc as (_ & _ & ?); congruence.
    + destruct Hpc as [[_ ?]|(_ & _ & Hr & _)]; [congruence|].
      now destruct pre.
    + destruct Hpc as (_ & _ & Hr & _). now destruct pre.
  - (* done *)
    repeat split; auto.
    + rewrite length_app in *. cbn [length] in *. lia.
    + destruct (pc s); try tauto.
      * destruct Hpc as [?|(_ & _ & _ & Hs)]; [now left|now destruct pre].
      * destruct Hpc as (_ & _ & _ & Hs & _). now destruct pre.
  - (* close *)
    assert (Hnil : running s = [] /\ sent s = []).
    { destruct (running s), (sent s); cbn [length] in Hwg; auto; lia. }
    destruct Hnil as [Hr Hs]. rewrite Hr, Hs in *.
    repeat split; auto.
    destruct (pc s).
    + destruct Hpc as (_ & ? & _); congruence.
    + right; auto.
    + destruct Hpc as (? & _); congruence.
  - (* recv *)
    repeat split; auto.
    + now rewrite <- app_assoc.
    + intros a' Ha'. apply Hcomp. now rewrite <- app_assoc in Ha'.
  - (* return *)
    destruct Hpc as [[_ ?]|(? & _ & ? & ?)]; [congruence|].
    repeat split; auto.
Qed.

Lemma inv_reachable s : reachable m init s -> inv m s.
Proof.
  induction 1; [apply inv_init|]. eapply inv_step; eassumption.
Qed.

Lemma inv_emitted_length s :
  inv m s -> (length (running s) + length (emitted s) = started s)%nat.
Proof.
  intros (_ & _ & Hperm & _).
  apply Permutation_length in Hperm.
  now rewrite length_app, !length_map, length_seq in Hperm.
Qed.

(** As long as nothing has panicked, [Run] is never stuck before it
    returns: a step that is not a panic is enabled. *)
Lemma progress s :
  inv m s -> panicked s = false -> pc s <> Returned ->
  exists s', step m s s' /\ panicked s' = false.
Proof.
  intros Hinv Hp Hnr. pose proof (inv_emitted_length s Hinv) as Hlen.
  destruct Hinv as (Hcap & Hwg & Hperm & Hcomp & Hpc).
  unfold started, emitted in Hlen.
  destruct (pc s) as [i| |] eqn:Epc; [| |congruence].
  - destruct (Nat.le_gt_cases i NumAuctions).
    + eexists. split; [eapply launch; eassumption|reflexivity].
    + eexists. split; [eapply launched; eassumption|reflexivity].
  - destruct (buf (results s)) as [|a rest] eqn:Ebuf.
    + destruct Hpc as [[Hcl Hclosed]|(Hcl & Hclosed & _)].
      * destruct (running s) as [|i run] eqn:Erun.
        -- destruct (sent s) as [|i snt] eqn:Esent.
           ++ eexists. split; [apply close; auto|reflexivity].
           ++ eexists. split;
                [apply done with (pre := []) (i := i) (post := snt); auto
                |reflexivity].
        -- destruct (auctionFacts.can_complete (bidders m) i timeout) as [a Ha].
           eexists. split;
             [apply emit with (pre := []) (i := i) (post := run) (a := a); auto
             |reflexivity].
           rewrite Ebuf, Hcap. cbn [length]. unfold NumAuctions. lia.
      * eexists. split; [apply ret; auto|reflexivity].
    + destruct Hpc as [[Hcl Hclosed]|(Hcl & Hclosed & _)];
        eexists; (split; [eapply recv; eauto|reflexivity]).
Qed.

(** Every step that is not a panic uses up fuel. *)
Lemma fuel_step s s' :
  inv m s -> step m s s' -> panicked s' = false -> (fuel s' < fuel s)%nat.
Proof.
  intros (Hcap & Hwg & Hperm & Hcomp & Hpc) Hstep.
  destruct Hstep; cbn [panicked]; intros Hp'; try discriminate Hp';
    clear Hp'; unfold fuel;
    cbn [pc running sent results buf closed close_chan];
    repeat match goal with
    | H : pc _ = _ |- _ => rewrite H in *
    | H : running _ = _ |- _ => rewrite H in *
    | H : sent _ = _ |- _ => rewrite H in *
    | H : buf _ = _ |- _ => rewrite H in *
    | H : cl _ = _ |- _ => rewrite H in *
    | H : closed _ = _ |- _ => rewrite H in *
    end;
    rewrite ?length_app; cbn [length]; rewrite ?length_app; cbn [length];
    unfold NumAuctions in *.
  - lia.
  - lia.
  - destruct (pc s); lia.
  - destruct (pc s), (closed (results s)); lia.
  - destruct (pc s) eqn:Epc.
    + destruct Hpc as (_ & ? & _); congruence.
    + destruct Hpc as [[_ ->]|(? & _)]; [lia|congruence].
    + destruct Hpc as (? & _); congruence.
  - destruct (closed (results s)); lia.
  - lia.
Qed.

(** From every state of [Run] in which nothing has panicked, [Run] can
    return; by [fuel_step] it does so within [fuel s] steps whatever the
    schedule, unless a goroutine panics. *)
Lemma returns_from n : forall s,
  (fuel s <= n)%nat -> inv m s -> panicked s = false ->
  exists s', reachable m s s' /\ pc s' = Returned /\ panicked s' = false.
Proof.
  induction n as [|n IH]; intros s Hn Hinv Hp.
  - destruct (pc s) eqn:Epc.
    + unfold fuel in Hn. rewrite Epc in Hn. lia.
    + unfold fuel in Hn. rewrite Epc in Hn. lia.
    + exists s. split; [apply reach_init|split; assumption].
  - destruct (pc s) eqn:Epc.
    1,2: destruct (progress s Hinv Hp ltac:(congruence)) as (s1 & Hstep & Hp1);
         pose proof (fuel_step s s1 Hinv Hstep Hp1);
         destruct (IH s1) as (s' & Hr & Hret);
           [lia|eapply inv_step; eassumption|assumption|];
         exists s'; split; [eapply run_reachable_first; eassumption|assumption].
    exists s. split; [apply reach_init|split; assumption].
Qed.

(** *** Executions by actions are executions of the step relation *)

Section Exec.
Variable result : Z -> Auction.
Hypothesis result_completes :
  forall i, auction.completes (bidders m) i timeout (result i).

Lemma run_exec1_sound s a s' : exec1 result s a = Some s' -> step m s s'.
Proof.
  unfold exec1. destruct (panicked s) eqn:Hp; [discriminate|].
  destruct a.
  - destruct (pc s) as [i| |] eqn:Hpc; try discriminate.
    destruct (Nat.leb_spec i NumAuctions); [|discriminate].
    intros [= <-]. now apply launch.
  - destruct (pc s) as [i| |] eqn:Hpc; try discriminate.
    destruct (Nat.ltb_spec NumAuctions i); [|discriminate].
    intros [= <-]. now apply launched with (i := i).
  - destruct (nth_error (running s) k) as [i|] eqn:Hk; [|discriminate].
    apply auctionFacts.nth_error_firstn_skipn in Hk.
    destruct (closed (results s)) eqn:Hc.
    + intros [= <-]. eapply emit_panic; eauto.
    + destruct (Nat.ltb_spec (length (buf (results s))) (cap (results s)));
        [|discriminate].
      intros [= <-]. eapply emit; eauto.
  - destruct (nth_error (sent s) k) as [i|] eqn:Hk; [|discriminate].
    apply auctionFacts.nth_error_firstn_skipn in Hk.
    intros [= <-]. eapply done; eauto.
  - destruct (cl s) eqn:Hcl; try discriminate.
    destruct (Z.eqb_spec (wg s) 0); [|discriminate].
    intros [= <-]. now apply close.
  - destruct (pc s) eqn:Hpc; try discriminate.
    destruct (buf (results s)) as [|a rest] eqn:Hb; [discriminate|].
    intros [= <-]. rewrite <- Hpc. now apply recv.
  - destruct (pc s) eqn:Hpc; try discriminate.
    destruct (buf (results s)) as [|a rest] eqn:Hb; [|discriminate].
    destruct (closed (results s)) eqn:Hc; [|discriminate].
    intros [= <-]. now apply ret.
Qed.

Lemma run_exec_sound l : forall s s',
  exec result s l = Some s' -> reachable m s s'.
Proof.
  induction l as [|a l IH]; intros s s'; cbn [exec].
  - intros [= <-]. apply reach_init.
  - destruct (exec1 result s a) as [s1|] eqn:H1; [|discriminate].
    intros H. eapply run_reachable_first; [eapply run_exec1_sound; eassumption|].
    now apply IH.
Qed.

End Exec.

End Run.
End managerFacts.

Section ManagerClaims.
Import manager managerFacts.

(** C7.  In every state of [Run], a panic of a [placeBid] goroutine
    included: the results channel is closed only when every launched
    goroutine has sent its auction and called [wg.Done()]; every auction
    launched so far is either still inside [auction.Run] or has sent its
    auction, exactly once; when [Run] has returned, the channel is closed and
    drained, and the collection returned holds forty auctions, one for each
    identifier from 1 to 40, each the completed auction of a run of
    [auction.Run].  As long as no goroutine has panicked, [Run] can take a
    step that is not a panic before it returns, every such step uses up fuel,
    and a returning state can be reached: unless the process panics, [Run]
    returns, after at most [fuel init] steps. *)
Theorem Run_collects_every_auction (m : Manager) (s : state) :
  reachable m init s ->
  (closed (results s) = true -> running s = [] /\ sent s = [] /\ wg s = 0) /\
  Permutation (running s ++ map ID (emitted s))
              (map Z.of_nat (seq 1 (started s))) /\
  (pc s = Returned ->
     closed (results s) = true /\ buf (results s) = [] /\
     length (auctionResults s) = NumAuctions /\
     Permutation (map ID (auctionResults s)) auction_ids /\
     forall a, In a (auctionResults s) ->
       auction.completes (bidders m) (ID a) timeout a) /\
  (panicked s = false -> pc s <> Returned ->
     exists s', step m s s' /\ panicked s' = false) /\
  (forall s', step m s s' -> panicked s' = false -> (fuel s' < fuel s)%nat) /\
  (panicked s = false ->
     exists s', reachable m s s' /\ pc s' = Returned /\ panicked s' = false).
Proof.
  intros Hs. pose proof (inv_reachable m s Hs) as Hinv.
  pose proof (inv_emitted_length m s Hinv) as Hlen.
  pose proof Hinv as (Hcap & Hwg & Hperm & Hcomp & Hpc).
  split; [|split; [exact Hperm|split; [|split; [|split]]]].
  - intros Hc. destruct (pc s).
    + destruct Hpc as (_ & _ & ?); congruence.
    + destruct Hpc as [[_ ?]|(_ & _ & Hr & Hse)]; [congruence|].
      rewrite Hr, Hse in Hwg. cbn in Hwg. auto.
    + destruct Hpc as (_ & _ & Hr & Hse & _).
      rewrite Hr, Hse in Hwg. cbn in Hwg. auto.
  - intros Hret. unfold started, emitted in *. rewrite Hret in *.
    destruct Hpc as (_ & Hc & Hr & _ & Hb & _).
    rewrite Hr, Hb, app_nil_r in *. cbn [app length] in *.
    repeat split; auto.
  - now apply progress.
  - intros s'. now apply fuel_step.
  - intros Hp. now apply (returns_from m (fuel s)).
Qed.

(** The sample run of an auction is a run of [auction.Run], for every
    identifier. *)
Lemma sample_completes i :
  auction.completes (bidders sample.mgr) i timeout (sample.result i).
Proof.
  exists 0, (sample.final (sample.start_of i) sample.full_run).
  split; [|split].
  - apply (auctionFacts.exec_sound sample.full_run).
    unfold sample.final.
    destruct (auction.exec _ _) eqn:E; [reflexivity|].
    vm_compute in E. discriminate.
  - vm_compute. reflexivity.
  - unfold sample.result. reflexivity.
Qed.

Lemma sample_returned : reachable sample.mgr init sample.returned.
Proof.
  apply (run_exec_sound sample.mgr sample.result sample_completes sequential).
  vm_compute. reflexivity.
Qed.

Lemma sample_midway : reachable sample.mgr init sample.midway.
Proof.
  apply (run_exec_sound sample.mgr sample.result sample_completes
           sample.first_results).
  vm_compute. reflexivity.
Qed.

Lemma Run_collects_every_auction_witness :
  Forall (fun s =>
    (closed (results s) = true -> running s = [] /\ sent s = [] /\ wg s = 0) /\
    Permutation (running s ++ map ID (emitted s))
                (map Z.of_nat (seq 1 (started s))) /\
    (pc s = Returned ->
       closed (results s) = true /\ buf (results s) = [] /\
       length (auctionResults s) = NumAuctions /\
       Permutation (map ID (auctionResults s)) auction_ids /\
       forall a, In a (auctionResults s) ->
         auction.completes (bidders sample.mgr) (ID a) timeout a) /\
    (panicked s = false -> pc s <> Returned ->
       exists s', step sample.mgr s s' /\ panicked s' = false) /\
    (forall s', step sample.mgr s s' -> panicked s' = false ->
       (fuel s' < fuel s)%nat) /\
    (panicked s = false ->
       exists s', reachable sample.mgr s s' /\ pc s' = Returned /\
                  panicked s' = false))
    [sample.midway; sample.returned].
Proof.
  apply Forall_cons; [|apply Forall_cons; [|apply Forall_nil]].
  - apply Run_collects_every_auction. exact sample_midway.
  - apply Run_collects_every_auction. exact sample_returned.
Defined.

(** C8.  When [Run] has returned, the first start it returns is at or
    before the start of every auction returned and is the start of one of
    them, and the last end it returns is at or after the end of every
    auction returned and is the end of one of them. *)
Theorem Run_bounds (m : Manager) (s : state) :
  reachable m init s -> pc s = Returned ->
  (forall a, In a (auctionResults s) ->
     firstStart s <= StartTime a /\ EndTime a <= lastEnd s) /\
  (exists a, In a (auctionResults s) /\ StartTime a = firstStart s) /\
  (exists a, In a (auctionResults s) /\ EndTime a = lastEnd s).
Proof.
  intros Hs Hret. pose proof (inv_reachable m s Hs) as Hinv.
  pose proof (inv_emitted_length m s Hinv) as Hlen.
  destruct Hinv as (_ & _ & _ & _ & Hpc).
  unfold started, emitted in Hlen. rewrite Hret in *.
  destruct Hpc as (_ & _ & Hr & _ & Hb & -> & ->).
  rewrite Hr, Hb, app_nil_r in Hlen. cbn [length Nat.add] in Hlen.
  apply bounds_spec. intros E. rewrite E in Hlen. discriminate.
Qed.

Lemma Run_bounds_witness :
  let s := sample.returned in
  (forall a, In a (auctionResults s) ->
     firstStart s <= StartTime a /\ EndTime a <= lastEnd s) /\
  (exists a, In a (auctionResults s) /\ StartTime a = firstStart s) /\
  (exists a, In a (auctionResults s) /\ EndTime a = lastEnd s).
Proof.
  apply (Run_bounds sample.mgr).
  - exact sample_returned.
  - vm_compute. reflexivity.
Defined.

End ManagerClaims.

(** ** The shared random source *)

Section Determinism.
Import rng.

(** C6.  With one seeded source shared by the goroutines, the attribute
    vector of an auction depends on the schedule: under two schedules of the
    same program with the same source, auction 1 gets the first twenty
    values of the source or the next twenty. *)
Theorem attributes_depend_on_schedule (src : source) :
  src 0%nat <> src 20%nat ->
  complete (exec src first_then_second) /\
  complete (exec src second_then_first) /\
  attrs1 (exec src first_then_second) = map src (seq 0 20) /\
  attrs1 (exec src second_then_first) = map src (seq 20 20) /\
  attrs1 (exec src first_then_second) <> attrs1 (exec src second_then_first).
Proof.
  intros Hsrc.
  assert (H1 : attrs1 (exec src first_then_second) = map src (seq 0 20))
    by reflexivity.
  assert (H2 : attrs1 (exec src second_then_first) = map src (seq 20 20))
    by reflexivity.
  repeat split; try reflexivity.
  rewrite H1, H2. cbn [map seq]. intros [= H _]. now apply Hsrc.
Qed.

Lemma attributes_depend_on_schedule_witness :
  complete (exec step_source first_then_second) /\
  complete (exec step_source second_then_first) /\
  attrs1 (exec step_source first_then_second) = map step_source (seq 0 20) /\
  attrs1 (exec step_source second_then_first) = map step_source (seq 20 20) /\
  attrs1 (exec step_source first_then_second)
    <> attrs1 (exec step_source second_then_first).
Proof.
  apply attributes_depend_on_schedule.
  intros H. apply (f_equal (fun x => PrimFloat.ltb x 0.5)) in H.
  vm_compute in H. discriminate.
Defined.

End Determinism.

(** ** Scenarios *)

(** An auction with no bidder ends at the timeout with no bid and no
    winner. *)
Example no_bidders_no_winner :
  let s := sample.final (auction.init 0 1 manager.timeout []) sample.no_bidders in
  auction.pc s = auction.Closed /\ Bids (auction.au s) = [] /\
  Winner (auction.au s) = None /\ TotalBids (auction.au s) = 0 /\
  EndTime (auction.au s) - StartTime (auction.au s) = manager.timeout.
Proof. vm_compute. repeat split. Qed.

(** Once a goroutine has panicked the process has ended: [manager.Run]
    takes no further step. *)
Lemma panicked_stuck m s s' :
  manager.panicked s = true -> ~ manager.step m s s'.
Proof.
  intros Hp Hstep. destruct Hstep; congruence.
Qed.

(** [manager.Run] need not return.  In a run of auction 40 over the
    manager's bidders, with the manager's timeout, the goroutine of bidder
    100 reaches its [select] after [close(bidChan)] and panics, with
    ninety-nine bids collected and no auction sent; [manager.Run], waiting
    in its range loop, goes no further. *)
Example Run_may_not_return :
  let a := sample.final (sample.start_of 40) sample.late_panic in
  let s0 := sample.all_launched in
  let s := manager.mkState (manager.pc s0) (manager.wg s0)
             (manager.running s0) (manager.sent s0) (manager.cl s0)
             (manager.results s0) (manager.auctionResults s0)
             (manager.firstStart s0) (manager.lastEnd s0) true in
  auction.reachable (sample.start_of 40) a /\
  auction.pc a = auction.ChanClosed /\ auction.panicked a = true /\
  length (Bids (auction.au a)) = 99%nat /\
  manager.reachable sample.mgr manager.init s /\
  manager.pc s = manager.Collecting /\ manager.auctionResults s = [] /\
  forall s', ~ manager.step sample.mgr s s'.
Proof.
  cbn zeta.
  assert (Ha : auction.reachable (sample.start_of 40)
                 (sample.final (sample.start_of 40) sample.late_panic)).
  { apply (auctionFacts.exec_sound sample.late_panic). vm_compute. reflexivity. }
  split; [exact Ha|]. do 3 (split; [vm_compute; reflexivity|]).
  split; [|split; [vm_compute; reflexivity|split; [vm_compute; reflexivity|]]].
  - eapply manager.reach_step.
    + apply (managerFacts.run_exec_sound sample.mgr sample.result
               sample_completes
               (repeat manager.ALaunch manager.NumAuctions
                ++ [manager.ALaunched])).
      vm_compute. reflexivity.
    + eapply manager.bid_panic
        with (pre := []) (i := 40)
             (post := map Z.of_nat (rev (seq 1 39))) (t0 := 0).
      * vm_compute. reflexivity.
      * vm_compute. reflexivity.
      * exact Ha.
      * vm_compute. reflexivity.
      * vm_compute. reflexivity.
  - intros s'. now apply panicked_stuck.
Qed.

(** The full sample run collects one bid from each of the hundred bidders;
    the earliest of the equal amounts wins. *)
Example full_run_result :
  TotalBids (sample.result 1) = 100 /\
  map BidderID (Bids (sample.result 1)) = map Z.of_nat (seq 1 100) /\
  Winner (sample.result 1) = Some (mkBid 1 2575 (10 * Millisecond)).
Proof. vm_compute. repeat split. Qed.

(** * Further properties *)

(** ** Winner resolution: ties and arrival order *)

Section WinnerMore.
Import F64Facts.

Lemma not_gt_eq x y :
  is_nan x = false -> is_nan y = false ->
  F64.gt x y = false -> F64.gt y x = false -> F64.eq x y = true.
Proof. intros Hx Hy. by_rank. Qed.

(** [w] stands in [l] after bids that all lose to it: an earlier bid of the
    same amount has a strictly later timestamp. *)
Definition first_best (l : list Bid) (w : Bid) : Prop :=
  exists pre post,
    l = pre ++ w :: post /\
    forall b, In b pre -> F64.eq (Amount b) (Amount w) = true ->
              Timestamp w < Timestamp b.

Lemma pick_first_best l w b :
  best l w -> first_best l w -> first_best (l ++ [b]) (pick w b).
Proof.
  intros (Hin & Hmax & Hearly) (pre & post & Hl & Hpre). unfold pick.
  destruct (F64.gt (Amount b) (Amount w)) eqn:Hgt.
  - destruct (gt_real _ _ Hgt) as [Hb Hw].
    exists l, []. split; [reflexivity|].
    intros c Hc Heq. destruct (eq_real _ _ Heq) as [Ec _].
    rewrite (gt_above_eq (Amount b) (Amount w) (Amount c)) in Heq; auto.
    discriminate.
  - destruct (F64.eq (Amount b) (Amount w)) eqn:Heq; cbn [andb].
    + destruct (eq_real _ _ Heq) as [Hb Hw].
      destruct (Before (Timestamp b) (Timestamp w)) eqn:Hts.
      * unfold Before in Hts. apply Z.ltb_lt in Hts.
        exists l, []. split; [reflexivity|].
        intros c Hc Hcb. destruct (eq_real _ _ Hcb) as [Ec _].
        assert (F64.eq (Amount c) (Amount w) = true)
          by (apply eq_chain with (x := Amount b); auto).
        specialize (Hearly c Hc H). lia.
      * exists pre, (post ++ [b]). split; [|exact Hpre].
        rewrite Hl, <- app_assoc. reflexivity.
    + exists pre, (post ++ [b]). split; [|exact Hpre].
      rewrite Hl, <- app_assoc. reflexivity.
Qed.

Lemma fold_pick_first_best rest : forall l w,
  best l w -> first_best l w ->
  first_best (l ++ rest) (fold_left pick rest w).
Proof.
  induction rest as [|b rest IH]; intros l w Hbest Hfirst; cbn [fold_left].
  - now rewrite app_nil_r.
  - replace (l ++ b :: rest) with ((l ++ [b]) ++ rest)
      by now rewrite <- app_assoc.
    apply IH; [now apply pick_best|now apply pick_first_best].
Qed.

(** X1.  Among bids tied in amount and in timestamp, the one that arrived first
    wins: the winner stands in the bid sequence after bids none of which has
    its amount without a strictly later timestamp. *)
Theorem DetermineWinner_first_arrival (a : Auction) (w : Bid) :
  Winner (DetermineWinner a) = Some w ->
  exists pre post,
    Bids a = pre ++ w :: post /\
    forall b, In b pre -> F64.eq (Amount b) (Amount w) = true ->
              Timestamp w < Timestamp b.
Proof.
  cbn [DetermineWinner Winner]. destruct (Bids a) as [|b0 rest]; [discriminate|].
  cbn [highest]. intros [= <-].
  apply (fold_pick_first_best rest [b0] b0); [apply best_singleton|].
  exists [], []. split; [reflexivity|]. intros b [].
Qed.

Lemma DetermineWinner_first_arrival_witness :
  let a := AddBid (AddBid (AddBid (NewAuction 1 (5 * Second))
             (mkBid 7 250 10)) (mkBid 8 250 10)) (mkBid 9 100 5) in
  exists pre post,
    Bids a = pre ++ mkBid 7 250 10 :: post /\
    forall b, In b pre -> F64.eq (Amount b) 250 = true -> 10 < Timestamp b.
Proof.
  apply (DetermineWinner_first_arrival _ (mkBid 7 250 10)). reflexivity.
Defined.

(** X2.  The winner does not depend on the order of arrival: two auctions whose
    bid sequences are permutations of each other, with amounts that are real
    numbers, get winners of the same amount and the same timestamp. *)
Theorem DetermineWinner_arrival_order (a a' : Auction) (w w' : Bid) :
  Permutation (Bids a) (Bids a') ->
  real_amounts (Bids a) ->
  Winner (DetermineWinner a) = Some w ->
  Winner (DetermineWinner a') = Some w' ->
  F64.eq (Amount w) (Amount w') = true /\ Timestamp w = Timestamp w'.
Proof.
  cbn [DetermineWinner Winner]. intros Hperm Hreal Hw Hw'.
  assert (Hne : Bids a <> []) by (destruct (Bids a); [discriminate|congruence]).
  assert (Hne' : Bids a' <> []) by (destruct (Bids a'); [discriminate|congruence]).
  destruct (highest_best _ Hne) as (v & Hv & Hin & Hmax & Hearly).
  destruct (highest_best _ Hne') as (v' & Hv' & Hin' & Hmax' & Hearly').
  assert (v = w) by congruence. assert (v' = w') by congruence. subst v v'.
  assert (Hin2 : In w' (Bids a))
    by (eapply Permutation_in; [apply Permutation_sym|]; eassumption).
  assert (Hin3 : In w (Bids a'))
    by (eapply Permutation_in; eassumption).
  pose proof (real_amounts_In _ _ Hreal Hin) as Rw.
  pose proof (real_amounts_In _ _ Hreal Hin2) as Rw'.
  assert (Heq : F64.eq (Amount w) (Amount w') = true)
    by (apply not_gt_eq; auto).
  assert (Heq' : F64.eq (Amount w') (Amount w) = true)
    by (apply not_gt_eq; auto).
  split; [exact Heq|].
  specialize (Hearly w' Hin2 Heq'). specialize (Hearly' w Hin3 Heq). lia.
Qed.

Lemma DetermineWinner_arrival_order_witness :
  F64.eq 250 250 = true /\ (10 : Z) = 10.
Proof.
  apply (DetermineWinner_arrival_order
           (AddBid (AddBid (NewAuction 1 (5 * Second))
                      (mkBid 7 100.5 30)) (mkBid 9 250 10))
           (AddBid (AddBid (NewAuction 1 (5 * Second))
                      (mkBid 9 250 10)) (mkBid 7 100.5 30))
           (mkBid 9 250 10) (mkBid 9 250 10)).
  - apply perm_swap.
  - repeat constructor.
  - reflexivity.
  - reflexivity.
Defined.

End WinnerMore.

(** ** Where the bids of a run come from *)

Module provenanceFacts.
Import auction auctionFacts provenance.

Lemma try_send_SendPanic' {A} (c : Chan A) v :
  try_send c v = SendPanic -> closed c = true.
Proof.
  unfold try_send. destruct (closed c); [reflexivity|].
  destruct (_ <? _)%nat; discriminate.
Qed.

Lemma step_ids_In s s' x : step s s' -> In x (ids s') -> In x (ids s).
Proof.
  intros Hstep Hin. apply (count_occ_In Z.eq_dec) in Hin.
  apply (count_occ_In Z.eq_dec). pose proof (step_ids s s' Hstep x). lia.
Qed.

Lemma step_ids_length s s' :
  step s s' -> (length (ids s') <= length (ids s))%nat.
Proof.
  intros Hstep.
  destruct Hstep;
    try match goal with
    | H : try_send _ _ = Sent _ |- _ =>
        apply try_send_Sent in H as (_ & _ & ->)
    end;
    unfold ids;
    cbn [pending placing bidChan au buf Bids AddBid set_EndTime
         set_StartTime set_Attributes DetermineWinner make_chan close_chan];
    repeat match goal with
    | H : _ = _ :> list _ |- _ => rewrite H in *
    end;
    rewrite ?length_app, ?length_map, ?length_app; cbn [length];
    rewrite ?length_app; cbn [length]; lia.
Qed.

Lemma wf_init t0 auctionID timeout bidders :
  wf bidders timeout (init t0 auctionID timeout bidders).
Proof.
  unfold wf, bids_of.
  cbn [init pc au pending placing bidChan buf make_chan NewAuction TimeoutMs
       Bids app].
  repeat split; intros;
    match goal with H : In _ [] |- _ => destruct H end.
Qed.

Ltac wf_simpl :=
  unfold wf, bids_of, timing, deadline_ok in *;
  cbn [now pc au deadline fired loop bidChan pending placing closed buf cap
       close_chan make_chan
       ID Timeout TimeoutMs StartTime EndTime Winner TotalBids Bids Attributes
       AddBid set_EndTime set_StartTime set_Attributes DetermineWinner] in *.

Lemma In_app3 {A} (x : A) l1 l2 l3 :
  In x (l1 ++ l2 ++ l3) <-> In x l1 \/ In x l2 \/ In x l3.
Proof. rewrite !in_app_iff. tauto. Qed.

Lemma wf_step bidders auctionID timeout s s' :
  timing auctionID timeout s -> wf bidders timeout s -> step s s' ->
  wf bidders timeout s'.
Proof.
  intros (_ & _ & Htim) (Hms & Hts & Hwake & Hcalc & Hpc) Hstep.
  destruct Hstep;
    try match goal with
    | H : try_send _ _ = Sent _ |- _ =>
        let Hc := fresh "Hc" in
        apply try_send_Sent in H as (Hc & _ & ->)
    end;
    wf_simpl;
    repeat match goal with
    | H : pc _ = _ |- _ => rewrite H in *
    end.
  - (* tick *)
    split; [exact Hms|]. split; [|split; [exact Hwake|split; [exact Hcalc|]]].
    + intros b Hb. specialize (Hts b Hb). lia.
    + exact Hpc.
  - (* start *)
    destruct Hpc as (Hpe & Hpl & Hb). rewrite Hpl, Hb.
    split; [exact Hms|]. do 3 (split; [intros ? []|]). auto.
  - (* open *)
    destruct Hpc as (Hpe & Hpl & Hb & Hattr).
    apply app_eq_nil in Hb as [_ Hb]. rewrite Hpl, Hb. cbn [app].
    split; [exact Hms|]. do 3 (split; [intros ? []|]). auto.
  - (* fire *)
    repeat (split; [assumption|]). exact Hpc.
  - (* skip *)
    repeat (split; [assumption|]). exact Hpc.
  - (* spawn *)
    split; [exact Hms|]. split; [exact Hts|]. split; [|split; [exact Hcalc|exact Hpc]].
    intros p [<-|Hp]; [|now apply Hwake].
    cbn [snd]. unfold MinDelay, bidder.processingDelay, Intn_draw, Millisecond in *.
    lia.
  - (* notified *)
    repeat (split; [assumption|]). exact Hpc.
  - (* place_sent *)
    assert (Hw : StartTime (au s) + MinDelay <= wake).
    { apply (Hwake (b, wake)). rewrite H0. apply in_elt. }
    split; [exact Hms|]. split; [|split; [|split]].
    + intros c Hc'. rewrite <- app_assoc in Hc'. apply In_app3 in Hc'.
      destruct Hc' as [Hc'|[[<-|[]]|Hc']].
      * apply Hts, in_or_app; now left.
      * cbn [Timestamp]. lia.
      * apply Hts, in_or_app; now right.
    + intros p Hp. apply Hwake. rewrite H0.
      apply in_app_or in Hp as [Hp|Hp]; apply in_or_app; [now left|right; now right].
    + intros c Hc'. rewrite <- app_assoc in Hc'. apply In_app3 in Hc'.
      destruct Hc' as [Hc'|[[<-|[]]|Hc']].
      * apply Hcalc, in_or_app; now left.
      * exists weights, f. auto.
      * apply Hcalc, in_or_app; now right.
    + destruct (pc s); try exact Hpc.
      * destruct Hpc as (_ & Hpl & _). rewrite H0 in Hpl. now destruct pre.
      * destruct Hpc as (_ & Hpl & _). rewrite H0 in Hpl. now destruct pre.
  - (* place_dropped *)
    split; [exact Hms|]. split; [exact Hts|]. split; [|split; [exact Hcalc|]].
    + intros p Hp. apply Hwake. rewrite H0.
      apply in_app_or in Hp as [Hp|Hp]; apply in_or_app; [now left|right; now right].
    + destruct (pc s); try exact Hpc.
      * destruct Hpc as (_ & Hpl & _). rewrite H0 in Hpl. now destruct pre.
      * destruct Hpc as (_ & Hpl & _). rewrite H0 in Hpl. now destruct pre.
  - (* place_panic *)
    split; [exact Hms|]. split; [exact Hts|]. split; [|split; [exact Hcalc|]].
    + intros p Hp. apply Hwake. rewrite H0.
      apply in_app_or in Hp as [Hp|Hp]; apply in_or_app; [now left|right; now right].
    + destruct (pc s); try exact Hpc.
      * destruct Hpc as (_ & Hpl & _). rewrite H0 in Hpl. now destruct pre.
      * destruct Hpc as (_ & Hpl & _). rewrite H0 in Hpl. now destruct pre.
  - (* collect *)
    rewrite H1 in *.
    assert (Hsub : forall c, In c (rest ++ Bids (au s) ++ [bid]) ->
                             In c ((bid :: rest) ++ Bids (au s))).
    { intros c Hc. apply In_app3 in Hc. cbn [app In]. rewrite in_app_iff.
      destruct Hc as [?|[?|[<-|[]]]]; tauto. }
    split; [exact Hms|]. split; [|split; [exact Hwake|split]].
    + intros c Hc. now apply Hts, Hsub.
    + intros c Hc. now apply Hcalc, Hsub.
    + destruct (pc s); try exact Hpc.
      * destruct Hpc as (_ & _ & Hb). discriminate.
      * destruct Hpc as (_ & _ & Hb & _). discriminate.
      * destruct Htim as (_ & _ & _ & _ & Hl & _). congruence.
  - (* stop *)
    repeat (split; [assumption|]). exact Hpc.
  - (* close *)
    repeat (split; [assumption|]). exact Hpc.
  - (* resolve *)
    split; [exact Hms|]. split; [exact Hts|]. split; [exact Hwake|].
    split; [exact Hcalc|]. destruct Hpc as [Ha Hc].
    split; [exact Ha|]. split; [exact Hc|].
    intros b Hb. apply Hts, in_or_app. now right.
Qed.

Lemma wf_timing_reachable t0 auctionID timeout bidders s :
  reachable (init t0 auctionID timeout bidders) s ->
  timing auctionID timeout s /\ wf bidders timeout s.
Proof.
  induction 1 as [|s s' _ [Htim Hwf] Hstep].
  - split; [apply timing_init|apply wf_init].
  - split; [eapply timing_step|eapply wf_step]; eassumption.
Qed.

Lemma ids_init t0 auctionID timeout bidders :
  ids (init t0 auctionID timeout bidders) = map bidder.ID bidders.
Proof.
  unfold ids. cbn [init pending placing bidChan au Bids NewAuction buf
                   make_chan map].
  now rewrite !app_nil_r.
Qed.

Lemma ids_reachable s0 s :
  reachable s0 s ->
  incl (ids s) (ids s0) /\ (length (ids s) <= length (ids s0))%nat.
Proof.
  induction 1 as [|s s' _ [IHi IHl] Hstep].
  - split; [apply incl_refl|lia].
  - split.
    + intros x Hx. apply IHi. eapply step_ids_In; eassumption.
    + pose proof (step_ids_length _ _ Hstep). lia.
Qed.

(** X5.  Every bid appended to the auction carries the identifier of one of the
    bidders that were notified, and there are at most as many bids as
    bidders. *)
Theorem Run_bids_from_bidders t0 auctionID timeout bidders s :
  reachable (init t0 auctionID timeout bidders) s ->
  incl (map BidderID (Bids (au s))) (map bidder.ID bidders) /\
  (length (Bids (au s)) <= length bidders)%nat.
Proof.
  intros Hs. destruct (ids_reachable _ _ Hs) as [Hincl Hlen].
  rewrite ids_init in *. rewrite length_map in Hlen. unfold ids in *. split.
  - intros x Hx. apply Hincl. rewrite !in_app_iff. auto.
  - rewrite !length_app, !length_map in Hlen. lia.
Qed.

Lemma Run_bids_from_bidders_witness :
  let s := sample.final (sample.start_of 1) sample.full_run in
  incl (map BidderID (Bids (au s)))
       (map bidder.ID (manager.bidders sample.mgr)) /\
  (length (Bids (au s)) <= length (manager.bidders sample.mgr))%nat.
Proof.
  apply (Run_bids_from_bidders 0 1 manager.timeout).
  apply (exec_sound sample.full_run). vm_compute. reflexivity.
Defined.

(** X6.  Every bid appended to the auction is stamped at least 10 ms after the
    start of the auction and not after the current instant; when the run is
    over, no bid is stamped after the end instant. *)
Theorem Run_bid_timestamps t0 auctionID timeout bidders s :
  reachable (init t0 auctionID timeout bidders) s ->
  forall b, In b (Bids (au s)) ->
    StartTime (au s) + 10 * Millisecond <= Timestamp b <= now s /\
    (pc s = Closed -> Timestamp b <= EndTime (au s)).
Proof.
  intros Hs b Hb.
  destruct (wf_timing_reachable _ _ _ _ _ Hs)
    as [_ (_ & Hts & _ & _ & Hpc)].
  split.
  - apply Hts. unfold bids_of. apply in_or_app. now right.
  - intros Hc. rewrite Hc in Hpc. now apply Hpc.
Qed.

Lemma Run_bid_timestamps_witness :
  let s := sample.final (sample.start_of 1) sample.full_run in
  Forall (fun b =>
            StartTime (au s) + 10 * Millisecond <= Timestamp b <= now s /\
            (pc s = Closed -> Timestamp b <= EndTime (au s)))
         (Bids (au s)).
Proof.
  apply Forall_forall.
  apply (Run_bid_timestamps 0 1 manager.timeout (manager.bidders sample.mgr)).
  apply (exec_sound sample.full_run). vm_compute. reflexivity.
Defined.

(** X7.  With at most 200 bidders, [bidChan] is never full when a [placeBid]
    goroutine reaches its [select]: no bid is lost to the [default] branch
    because of a full queue.  The submission queues the bid when the channel
    is open and panics when it is closed. *)
Theorem bidChan_never_full t0 auctionID timeout bidders s :
  (length bidders <= BidChanCap)%nat ->
  reachable (init t0 auctionID timeout bidders) s ->
  placing s <> [] ->
  forall bid,
    try_send (bidChan s) bid <> NotReady /\
    (closed (bidChan s) = false ->
     try_send (bidChan s) bid
     = Sent (mkChan (buf (bidChan s) ++ [bid]) BidChanCap false)).
Proof.
  intros Hcap Hs Hpl bid.
  destruct (ids_reachable _ _ Hs) as [_ Hlen].
  rewrite ids_init, length_map in Hlen. unfold ids in Hlen.
  rewrite !length_app, !length_map in Hlen.
  destruct (wf_timing_reachable _ _ _ _ _ Hs)
    as [_ (_ & _ & _ & _ & Hpc)].
  assert (Hc : cap (bidChan s) = BidChanCap).
  { destruct (pc s); try tauto; destruct Hpc as (_ & ? & _); congruence. }
  assert (Hlt : (length (buf (bidChan s)) < BidChanCap)%nat).
  { destruct (placing s); [congruence|]. cbn [length] in Hlen. lia. }
  unfold try_send. rewrite Hc.
  destruct (closed (bidChan s)); [split; [discriminate|discriminate]|].
  destruct (Nat.ltb_spec (length (buf (bidChan s))) BidChanCap); [|lia].
  split; [discriminate|reflexivity].
Qed.

Lemma bidChan_never_full_witness :
  let s := sample.final sample.short_start sample.opening in
  let bid := mkBid 100 2575 (499 * Millisecond) in
  try_send (bidChan s) bid <> NotReady /\
  (closed (bidChan s) = false ->
   try_send (bidChan s) bid
   = Sent (mkChan (buf (bidChan s) ++ [bid]) BidChanCap false)).
Proof.
  apply (bidChan_never_full 0 1 (10 * Millisecond) (manager.bidders sample.mgr)).
  - vm_compute. repeat constructor.
  - apply (exec_sound sample.opening). vm_compute. reflexivity.
  - vm_compute. discriminate.
Defined.

Lemma step_quiet s s' :
  step s s' -> pending s = [] -> placing s = [] ->
  pending s' = [] /\ placing s' = [] /\ panicked s' = false.
Proof.
  intros Hstep Hpe Hpl.
  destruct Hstep; cbn [pending placing panicked]; auto;
    try congruence;
    match goal with
    | H : placing _ = _ ++ _ :: _ |- _ =>
        rewrite Hpl in H; now destruct pre
    end.
Qed.

(** X8.  A run panics only after [close(bidChan)], and only through a [placeBid]
    goroutine that is still outstanding: from a state in which every bidder
    has been considered and every [placeBid] has reached its [select],
    nothing ever panics. *)
Theorem panic_needs_outstanding_placeBid t0 auctionID timeout bidders s :
  reachable (init t0 auctionID timeout bidders) s ->
  (panicked s = true -> closed (bidChan s) = true) /\
  (panicked s = false -> pending s = [] -> placing s = [] ->
   forall s', reachable s s' -> panicked s' = false).
Proof.
  intros Hs. split.
  - induction Hs as [|s s' _ IH Hstep]; [discriminate|].
    destruct Hstep; cbn [panicked bidChan]; try discriminate.
    intros _. eapply try_send_SendPanic'. eassumption.
  - intros Hp Hpe Hpl s' Hs'.
    enough (pending s' = [] /\ placing s' = [] /\ panicked s' = false) by tauto.
    induction Hs' as [|s1 s2 _ IH Hstep]; [auto|].
    destruct IH as (? & ? & _). eapply step_quiet; eassumption.
Qed.

Lemma panic_needs_outstanding_placeBid_witness :
  Forall (fun s =>
    (panicked s = true -> closed (bidChan s) = true) /\
    (panicked s = false -> pending s = [] -> placing s = [] ->
     forall s', reachable s s' -> panicked s' = false))
    [sample.final (sample.start_of 1) sample.late_panic;
     sample.final (sample.start_of 1) sample.full_run].
Proof.
  apply Forall_cons; [|apply Forall_cons; [|apply Forall_nil]].
  - apply (panic_needs_outstanding_placeBid 0 1 manager.timeout
             (manager.bidders sample.mgr)).
    apply (exec_sound sample.late_panic). vm_compute. reflexivity.
  - apply (panic_needs_outstanding_placeBid 0 1 manager.timeout
             (manager.bidders sample.mgr)).
    apply (exec_sound sample.full_run). vm_compute. reflexivity.
Defined.

(** X9.  The auction that [Run] sends carries the identifier and the timeout it
    was given, the timeout in whole milliseconds, twenty attributes of
    [[0, 1)], and bids whose amounts [calculateBid] computed from these
    attributes. *)
Theorem Run_result_record bidders auctionID timeout a :
  completes bidders auctionID timeout a ->
  ID a = auctionID /\ Timeout a = timeout /\
  TimeoutMs a = Milliseconds timeout /\
  length (Attributes a) = NumAttributes /\
  Forall (fun x => unit_draw x = true) (Attributes a) /\
  Forall (calculated (Attributes a)) (Bids a).
Proof.
  intros (t0 & s & Hs & Hc & <-).
  destruct (wf_timing_reachable _ _ _ _ _ Hs)
    as [(Hid & Hto & _) (Hms & _ & _ & Hcalc & Hpc)].
  rewrite Hc in Hpc. destruct Hpc as ([Hlen Hunit] & _).
  repeat split; auto.
  apply Forall_forall. intros b Hb. apply Hcalc. unfold bids_of.
  apply in_or_app. now right.
Qed.

End provenanceFacts.

(** ** Adding bids and resolving again *)

Lemma highest_app bids b :
  highest (bids ++ [b])
  = Some match highest bids with None => b | Some w => pick w b end.
Proof.
  destruct bids as [|b0 rest]; [reflexivity|].
  cbn [app highest]. now rewrite fold_left_app.
Qed.

(** X3.  Resolving after one more bid: the winner is the new bid on an auction
    without bids, and otherwise the outcome of one comparison of the new bid
    with the previous winner; the count grows by one. *)
Theorem DetermineWinner_AddBid (a : Auction) (b : Bid) :
  Winner (DetermineWinner (AddBid a b))
  = Some match Winner (DetermineWinner a) with
         | None => b
         | Some w => pick w b
         end /\
  TotalBids (DetermineWinner (AddBid a b)) = TotalBids (DetermineWinner a) + 1.
Proof.
  cbn [DetermineWinner AddBid Winner TotalBids Bids]. split.
  - apply highest_app.
  - rewrite length_app. cbn [length]. lia.
Qed.

(** ** The timeout in milliseconds *)

(** X4.  [NewAuction] records the timeout in whole milliseconds, truncated toward
    zero: less than a millisecond is lost, a whole number of milliseconds is
    kept as it is, and the new auction has no bid and no winner. *)
Theorem NewAuction_TimeoutMs (id : Z) (timeout : Duration) :
  let a := NewAuction id timeout in
  Z.abs (timeout - TimeoutMs a * Millisecond) < Millisecond /\
  Z.abs (TimeoutMs a * Millisecond) <= Z.abs timeout /\
  (forall n, timeout = n * Millisecond -> TimeoutMs a = n) /\
  Bids a = [] /\ Winner (DetermineWinner a) = None.
Proof.
  cbn [NewAuction TimeoutMs Bids DetermineWinner Winner highest].
  unfold Milliseconds, Millisecond.
  repeat split; try (intros n ->);
    Z.to_euclidean_division_equations; lia.
Qed.

(** ** The bidders of the manager *)

(** X10.  [NewManager] builds one hundred bidders, with the identifiers 1 to 100
    in this order. *)
Theorem NewManager_bidders (rnd : nat -> float) :
  length (manager.bidders (manager.NewManager rnd)) = manager.NumBidders /\
  map bidder.ID (manager.bidders (manager.NewManager rnd))
  = map Z.of_nat (seq 1 manager.NumBidders) /\
  forall i, (i < manager.NumBidders)%nat ->
    nth_error (manager.bidders (manager.NewManager rnd)) i
    = Some (bidder.NewBidder (Z.of_nat (i + 1)) (rnd i)).
Proof.
  cbn [manager.NewManager manager.bidders]. split; [|split].
  - now rewrite length_map, length_seq.
  - rewrite map_map. cbn [bidder.NewBidder bidder.ID].
    rewrite <- seq_shift, map_map. apply map_ext. intros i. f_equal. lia.
  - intros i Hi.
    rewrite nth_error_map, nth_error_seq.
    destruct (Nat.ltb_spec i manager.NumBidders); [reflexivity|lia].
Qed.

(** ** The WaitGroup and the results channel *)

(** X11.  In every state of [manager.Run]: the WaitGroup counter is the number of
    goroutines that have not called [wg.Done()] and is never negative; a
    goroutine that is about to send its result finds the channel open and
    not full, so the send does not wait; and at most forty results have
    been sent. *)
Theorem Run_send_never_waits (m : manager.Manager) (s : manager.state) :
  manager.reachable m manager.init s ->
  0 <= manager.wg s /\
  manager.wg s
  = Z.of_nat (length (manager.running s) + length (manager.sent s)) /\
  (manager.running s <> [] ->
   closed (manager.results s) = false /\
   (length (buf (manager.results s)) < cap (manager.results s))%nat) /\
  (length (manager.emitted s) <= manager.NumAuctions)%nat.
Proof.
  intros Hs. pose proof (managerFacts.inv_reachable m s Hs) as Hinv.
  pose proof (managerFacts.inv_emitted_length m s Hinv) as Hlen.
  destruct Hinv as (Hcap & Hwg & _ & _ & Hpc).
  assert (Hst : (manager.started s <= manager.NumAuctions)%nat).
  { unfold manager.started. destruct (manager.pc s); lia. }
  split; [lia|]. split; [exact Hwg|]. split; [|lia].
  intros Hrun. split.
  - destruct (closed (manager.results s)) eqn:Hc; [|reflexivity].
    destruct (manager.pc s).
    + destruct Hpc as (_ & _ & ?); congruence.
    + destruct Hpc as [[_ ?]|(_ & _ & ? & _)]; congruence.
    + destruct Hpc as (_ & _ & ? & _); congruence.
  - unfold manager.emitted in Hlen. rewrite length_app in Hlen.
    destruct (manager.running s); [congruence|]. cbn [length] in Hlen.
    rewrite Hcap. lia.
Qed.

Lemma Run_send_never_waits_witness :
  let s := sample.returned in
  0 <= manager.wg s /\
  manager.wg s
  = Z.of_nat (length (manager.running s) + length (manager.sent s)) /\
  (manager.running s <> [] ->
   closed (manager.results s) = false /\
   (length (buf (manager.results s)) < cap (manager.results s))%nat) /\
  (length (manager.emitted s) <= manager.NumAuctions)%nat.
Proof.
  apply (Run_send_never_waits sample.mgr). exact sample_returned.
Defined.

(** ** The execution summary *)

Section Summary.
Import counts.

Lemma wrap64_small z : - 2 ^ 63 <= z < 2 ^ 63 -> wrap64 z = z.
Proof. intros H. unfold wrap64. rewrite Z.mod_small; lia. Qed.

Lemma int_add_small x y : - 2 ^ 63 <= x + y < 2 ^ 63 -> int_add x y = x + y.
Proof. apply wrap64_small. Qed.

Lemma no_bids_bounds l : 0 <= no_bids l <= Z.of_nat (length l).
Proof.
  unfold no_bids. pose proof (filter_length_le (fun a => TotalBids a =? 0) l).
  lia.
Qed.

Lemma sum_bids_nonneg l :
  Forall (fun a => 0 <= TotalBids a) l -> 0 <= sum_bids l.
Proof.
  unfold sum_bids. induction 1; cbn [map fold_right]; lia.
Qed.

Lemma tally_spec l : forall t n,
  Forall (fun a => 0 <= TotalBids a) l ->
  0 <= t -> 0 <= n ->
  t + sum_bids l < 2 ^ 63 -> n + Z.of_nat (length l) < 2 ^ 63 ->
  output.tally l t n = (t + sum_bids l, n + no_bids l).
Proof.
  induction l as [|a l IH]; intros t n Hall Ht Hn Hsum Hlen.
  - unfold sum_bids, no_bids. cbn. f_equal; lia.
  - inversion Hall as [|? ? Ha Hl]; subst.
    pose proof (sum_bids_nonneg l Hl) as Hl0.
    pose proof (no_bids_bounds l) as Hnb.
    unfold sum_bids in Hsum, Hl0. cbn [map fold_right length] in Hsum, Hlen.
    fold (sum_bids l) in Hsum, Hl0.
    cbn [output.tally]. unfold int_add. rewrite (wrap64_small (t + TotalBids a)) by lia.
    unfold sum_bids, no_bids. cbn [map fold_right filter].
    fold (sum_bids l).
    destruct (Z.eqb_spec (TotalBids a) 0) as [E|E].
    + rewrite (wrap64_small (n + 1)) by lia.
      rewrite IH by (auto; lia). cbn [length]. fold (no_bids l).
      unfold no_bids. f_equal; lia.
    + rewrite IH by (auto; lia). fold (no_bids l). f_equal; lia.
Qed.

Lemma sum_zero_iff l :
  Forall (fun a => 0 <= TotalBids a) l ->
  (sum_bids l = 0 <-> no_bids l = Z.of_nat (length l)).
Proof.
  unfold sum_bids, no_bids.
  induction 1 as [|a l Ha Hl IH]; cbn [map fold_right filter length].
  - tauto.
  - pose proof (sum_bids_nonneg l Hl) as Hl0. unfold sum_bids in Hl0.
    pose proof (filter_length_le (fun a => TotalBids a =? 0) l) as Hf.
    destruct (Z.eqb_spec (TotalBids a) 0) as [E|E]; cbn [length]; lia.
Qed.

Lemma summary_fields (auctions : list Auction) (firstStart lastEnd : Time)
    (maxCPUs : Z) (peakMemoryMB : float) (avgGoroutines : Z) :
  Forall (fun a => 0 <= TotalBids a) auctions ->
  sum_bids auctions < 2 ^ 63 ->
  Z.of_nat (length auctions) < 2 ^ 63 ->
  let sm := output.summary auctions firstStart lastEnd maxCPUs peakMemoryMB
                           avgGoroutines in
  output.TotalBids (output.Stats sm) = sum_bids auctions /\
  output.AuctionsWithNoBids (output.Stats sm) = no_bids auctions /\
  output.TotalAuctions sm = Z.of_nat (length auctions) /\
  output.FirstAuctionStart sm = firstStart /\
  output.LastAuctionEnd sm = lastEnd /\
  output.TotalExecutionTimeMs sm = Milliseconds (Sub lastEnd firstStart) /\
  output.AvgBidsPerAuction (output.Stats sm)
  = output.average (sum_bids auctions) (length auctions).
Proof.
  intros Hall Hsum Hlen. unfold output.summary.
  rewrite tally_spec by (auto; lia). cbn zeta.
  cbn [output.Stats output.TotalBids output.AuctionsWithNoBids
       output.TotalAuctions output.AvgBidsPerAuction output.FirstAuctionStart
       output.LastAuctionEnd output.TotalExecutionTimeMs].
  rewrite !Z.add_0_l. repeat split.
Qed.

(** X14.  The statistics of the summary, for auctions with non-negative counts
    that add up within an [int]: the total of the bid counts, the number of
    auctions without bids, which is at most the number of auctions and equal
    to it exactly when the total is zero; without auctions the average is
    0.0, with no division. *)
Theorem summary_counts (auctions : list Auction) (firstStart lastEnd : Time)
    (maxCPUs : Z) (peakMemoryMB : float) (avgGoroutines : Z) :
  Forall (fun a => 0 <= TotalBids a) auctions ->
  sum_bids auctions < 2 ^ 63 ->
  Z.of_nat (length auctions) < 2 ^ 63 ->
  let sm := output.summary auctions firstStart lastEnd maxCPUs peakMemoryMB
                    avgGoroutines in
  output.TotalBids (output.Stats sm) = sum_bids auctions /\
  output.AuctionsWithNoBids (output.Stats sm) = no_bids auctions /\
  0 <= output.AuctionsWithNoBids (output.Stats sm) <= output.TotalAuctions sm /\
  (output.TotalBids (output.Stats sm) = 0
   <-> output.AuctionsWithNoBids (output.Stats sm) = output.TotalAuctions sm) /\
  (auctions = [] -> output.AvgBidsPerAuction (output.Stats sm) = 0%float).
Proof.
  intros Hall Hsum Hlen.
  destruct (summary_fields auctions firstStart lastEnd maxCPUs peakMemoryMB
              avgGoroutines Hall Hsum Hlen)
    as (Htb & Hnb & Hta & _ & _ & _ & Havg).
  cbn zeta. rewrite Htb, Hnb, Hta, Havg.
  pose proof (no_bids_bounds auctions).
  repeat split; try lia.
  - now apply sum_zero_iff.
  - now apply sum_zero_iff.
  - intros ->. reflexivity.
Qed.

Lemma summary_counts_witness :
  let auctions := [DetermineWinner (NewAuction 1 (5 * Second));
                   sample.result 2] in
  let sm := output.summary auctions 0 (5 * Second) 4 2.5 195 in
  output.TotalBids (output.Stats sm) = sum_bids auctions /\
  output.AuctionsWithNoBids (output.Stats sm) = no_bids auctions /\
  0 <= output.AuctionsWithNoBids (output.Stats sm) <= output.TotalAuctions sm /\
  (output.TotalBids (output.Stats sm) = 0
   <-> output.AuctionsWithNoBids (output.Stats sm) = output.TotalAuctions sm) /\
  (auctions = [] -> output.AvgBidsPerAuction (output.Stats sm) = 0%float).
Proof.
  apply summary_counts.
  - repeat constructor; vm_compute; discriminate.
  - vm_compute. reflexivity.
  - vm_compute. reflexivity.
Defined.

Lemma Sub_lower t u d :
  0 <= d <= maxDuration -> u + d <= t -> d <= Sub t u.
Proof.
  unfold Sub, minDuration, maxDuration. intros Hd Htu.
  destruct (Z.ltb_spec (t - u) (- 2 ^ 63)); [lia|].
  destruct (Z.ltb_spec (2 ^ 63 - 1) (t - u)); lia.
Qed.

(** X15.  The summary of what [manager.Run] returns: forty auctions, between 0
    and 4000 bids in total, and a total execution time, from the first start
    to the last end, of at least the 5000 ms of the timeout. *)
Theorem summary_of_Run (rnd : nat -> float) (s : manager.state)
    (maxCPUs : Z) (peakMemoryMB : float) (avgGoroutines : Z) :
  manager.reachable (manager.NewManager rnd) manager.init s ->
  manager.pc s = manager.Returned ->
  let sm := output.summary (manager.auctionResults s) (manager.firstStart s)
                    (manager.lastEnd s) maxCPUs peakMemoryMB avgGoroutines in
  output.TotalAuctions sm = 40 /\
  5000 <= output.TotalExecutionTimeMs sm /\
  output.FirstAuctionStart sm <= output.LastAuctionEnd sm /\
  0 <= output.TotalBids (output.Stats sm) <= 4000 /\
  0 <= output.AuctionsWithNoBids (output.Stats sm) <= 40.
Proof.
  intros Hs Hret.
  pose proof (managerFacts.inv_reachable _ s Hs) as Hinv.
  pose proof (managerFacts.inv_emitted_length _ s Hinv) as Hlen.
  destruct Hinv as (_ & _ & _ & Hcomp & Hpc).
  unfold manager.started, manager.emitted in *. rewrite Hret in *.
  destruct Hpc as (_ & _ & Hr & _ & Hb & Hfs & Hle).
  rewrite Hr, Hb, app_nil_r in *. cbn [length Nat.add] in Hlen.
  set (rs := manager.auctionResults s) in *.
  (* each result: at most a hundred bids, and the timeout between start and end *)
  assert (Hres : forall a, In a rs ->
            0 <= TotalBids a <= 100 /\
            StartTime a + manager.timeout <= EndTime a).
  { intros a Ha. destruct (Hcomp a Ha) as (t0 & st & Hst & Hc & <-).
    pose proof (auctionFacts.timing_reachable _ _ _ _ _ Hst) as (_ & _ & Ht).
    rewrite Hc in Ht. destruct Ht as (_ & _ & _ & _ & _ & _ & Hend & _ & Htot).
    destruct (provenanceFacts.ids_reachable _ _ Hst) as [_ Hl].
    rewrite provenanceFacts.ids_init, length_map in Hl.
    unfold auction.ids in Hl. rewrite !length_app, !length_map in Hl.
    cbn [manager.NewManager manager.bidders] in Hl.
    rewrite length_map, length_seq in Hl. unfold manager.NumBidders in Hl.
    split; [lia|exact Hend]. }
  assert (Hall : Forall (fun a => 0 <= TotalBids a) rs)
    by (apply Forall_forall; intros a Ha; apply Hres; exact Ha).
  assert (Hsum : sum_bids rs <= 100 * Z.of_nat (length rs)).
  { clear - Hres. unfold sum_bids.
    induction rs as [|a rs IH]; cbn [map fold_right length]; [lia|].
    pose proof (Hres a (or_introl eq_refl)).
    assert (forall b, In b rs -> 0 <= TotalBids b <= 100 /\
              StartTime b + manager.timeout <= EndTime b)
      by (intros b Hb; apply Hres; now right).
    specialize (IH H0). lia. }
  unfold manager.NumAuctions in Hlen.
  destruct (summary_fields rs (manager.firstStart s) (manager.lastEnd s)
              maxCPUs peakMemoryMB avgGoroutines Hall)
    as (Htb & Hnb & Hta & Hfirst & Hlast & Hms & _); [lia|lia|].
  cbn zeta. rewrite Hta, Htb, Hnb, Hfirst, Hlast, Hms.
  pose proof (no_bids_bounds rs). pose proof (sum_bids_nonneg rs Hall).
  assert (Hne : rs <> []) by (intros E; rewrite E in Hlen; discriminate).
  destruct (bounds_spec rs Hne) as (Hbd & (a1 & Ha1 & Hs1) & _).
  destruct (Hbd a1 Ha1) as [_ He1]. destruct (Hres a1 Ha1) as [_ Hd1].
  rewrite <- Hfs, <- Hle in *.
  assert (Hsub : 5000000000 <= Sub (manager.lastEnd s) (manager.firstStart s)).
  { apply Sub_lower; [unfold maxDuration; lia|].
    unfold manager.timeout, Second, Millisecond in Hd1. lia. }
  repeat split; try lia.
  unfold Milliseconds, Millisecond.
  Z.to_euclidean_division_equations; lia.
  unfold manager.timeout, Second, Millisecond in Hd1. lia.
Qed.

End Summary.

Lemma summary_of_Run_witness :
  let s := sample.returned in
  let sm := output.summary (manager.auctionResults s) (manager.firstStart s)
                           (manager.lastEnd s) 4 2.5 195 in
  output.TotalAuctions sm = 40 /\
  5000 <= output.TotalExecutionTimeMs sm /\
  output.FirstAuctionStart sm <= output.LastAuctionEnd sm /\
  0 <= output.TotalBids (output.Stats sm) <= 4000 /\
  0 <= output.AuctionsWithNoBids (output.Stats sm) <= 40.
Proof.
  apply (summary_of_Run (fun _ => 0.5%float)).
  - exact sample_returned.
  - vm_compute. reflexivity.
Defined.

Lemma Run_result_record_witness :
  let a := sample.result 1 in
  ID a = 1 /\ Timeout a = manager.timeout /\
  TimeoutMs a = Milliseconds manager.timeout /\
  length (Attributes a) = NumAttributes /\
  Forall (fun x => unit_draw x = true) (Attributes a) /\
  Forall (provenance.calculated (Attributes a)) (Bids a).
Proof.
  apply (provenanceFacts.Run_result_record (manager.bidders sample.mgr)).
  apply sample_completes.
Defined.

(** ** The getters of the resource monitor *)

Section Monitor.
Import resource counts F64Facts.

Lemma higher_max seen p s :
  (forall c, In c seen -> F64.gt (MemoryMB c) p = false) ->
  forall c, In c (seen ++ [s]) -> F64.gt (MemoryMB c) (higher p s) = false.
Proof.
  intros Hseen c Hc. unfold higher.
  destruct (F64.gt (MemoryMB s) p) eqn:Hgt.
  - destruct (gt_real _ _ Hgt) as [Hs Hp].
    apply in_app_or in Hc as [Hc|[<-|[]]]; [|apply gt_irrefl].
    destruct (is_nan (MemoryMB c)) eqn:Ec; [now apply gt_nan_l|].
    apply gt_above with (y := p); auto.
  - apply in_app_or in Hc as [Hc|[<-|[]]]; auto.
Qed.

Lemma fold_higher rest : forall all seen p,
  (p = 0%float /\ all = [] \/ exists s, In s all /\ p = MemoryMB s) ->
  incl rest all ->
  (forall c, In c seen -> F64.gt (MemoryMB c) p = false) ->
  let r := fold_left higher rest p in
  (r = 0%float /\ all = [] \/ exists s, In s all /\ r = MemoryMB s) /\
  forall c, In c (seen ++ rest) -> F64.gt (MemoryMB c) r = false.
Proof.
  induction rest as [|s rest IH]; intros all seen p Hp Hincl Hseen;
    cbn [fold_left].
  - rewrite app_nil_r. auto.
  - replace (seen ++ s :: rest) with ((seen ++ [s]) ++ rest)
      by now rewrite <- app_assoc.
    apply IH.
    + unfold higher. destruct (F64.gt (MemoryMB s) p); [|exact Hp].
      right. exists s. split; [apply Hincl; now left|reflexivity].
    + intros c Hc. apply Hincl. now right.
    + now apply higher_max.
Qed.

Lemma GetPeakMemoryMB_nonempty (m : Monitor) :
  samples m <> [] ->
  (exists s, In s (samples m) /\ GetPeakMemoryMB m = MemoryMB s) /\
  (forall s, In s (samples m) ->
     F64.gt (MemoryMB s) (GetPeakMemoryMB m) = false).
Proof.
  unfold GetPeakMemoryMB. intros Hne.
  destruct (samples m) as [|s0 rest] eqn:E; [congruence|].
  destruct (fold_higher (s0 :: rest) (s0 :: rest) [] (MemoryMB s0))
    as [[[_ ?]|Hex] Hmax]; try discriminate.
  - right. exists s0. split; [now left|reflexivity].
  - apply incl_refl.
  - intros c [].
  - split; [exact Hex|exact Hmax].
Qed.

(** X16.  [GetPeakMemoryMB] returns 0 without samples; otherwise it returns the
    memory of one of the samples, which no sample exceeds, and which is
    greater than or equal to the memory of every sample when none is NaN. *)
Theorem GetPeakMemoryMB_max (m : Monitor) :
  (samples m = [] -> GetPeakMemoryMB m = 0%float) /\
  (samples m <> [] ->
   (exists s, In s (samples m) /\ GetPeakMemoryMB m = MemoryMB s) /\
   (forall s, In s (samples m) ->
      F64.gt (MemoryMB s) (GetPeakMemoryMB m) = false) /\
   (Forall (fun s => is_nan (MemoryMB s) = false) (samples m) ->
    forall s, In s (samples m) ->
      F64.ge (GetPeakMemoryMB m) (MemoryMB s) = true)).
Proof.
  split; [unfold GetPeakMemoryMB; now intros ->|]. intros Hne.
  destruct (GetPeakMemoryMB_nonempty m Hne) as [Hex Hmax].
  split; [exact Hex|]. split; [exact Hmax|].
  intros Hreal s Hs. destruct Hex as (sp & Hsp & Ep).
  rewrite Forall_forall in Hreal.
  apply not_gt_ge; auto. rewrite Ep. auto.
Qed.

Lemma total_goroutines_spec l : forall lo hi,
  0 <= lo ->
  Forall (fun s => lo <= NumGoroutines s <= hi) l ->
  hi * Z.of_nat (length l) < 2 ^ 63 ->
  total_goroutines l = sum_goroutines l /\
  lo * Z.of_nat (length l) <= sum_goroutines l <= hi * Z.of_nat (length l).
Proof.
  intros lo hi Hlo Hall Hfit. unfold total_goroutines.
  enough (G : forall t, 0 <= t -> t + hi * Z.of_nat (length l) < 2 ^ 63 ->
            fold_left (fun total s => int_add total (NumGoroutines s)) l t
            = t + sum_goroutines l /\
            lo * Z.of_nat (length l) <= sum_goroutines l
            <= hi * Z.of_nat (length l)).
  { destruct (G 0) as [-> ?]; [lia|lia|]. split; [lia|assumption]. }
  clear Hfit. induction Hall as [|s l Hs Hl IH]; intros t Ht Hfit.
  - unfold sum_goroutines. cbn. lia.
  - cbn [fold_left length] in *. unfold sum_goroutines in *.
    cbn [map fold_right].
    rewrite int_add_small by nia.
    destruct (IH (t + NumGoroutines s)) as [-> Hb]; [lia|nia|].
    split; [lia|nia].
Qed.

(** X17.  [GetAvgGoroutines] returns 0 without samples, with no division;
    otherwise, for counts between [lo] and [hi] that add up within an
    [int], it returns a value between [lo] and [hi]: the sum of the counts
    divided by their number, rounded down. *)
Theorem GetAvgGoroutines_bounds (m : Monitor) (lo hi : Z) :
  0 <= lo ->
  Forall (fun s => lo <= NumGoroutines s <= hi) (samples m) ->
  hi * Z.of_nat (length (samples m)) < 2 ^ 63 ->
  (samples m = [] -> GetAvgGoroutines m = 0) /\
  (samples m <> [] ->
   GetAvgGoroutines m
   = sum_goroutines (samples m) / Z.of_nat (length (samples m)) /\
   lo <= GetAvgGoroutines m <= hi).
Proof.
  intros Hlo Hall Hfit. unfold GetAvgGoroutines.
  split; [now intros ->|]. intros Hne.
  destruct (total_goroutines_spec _ lo hi Hlo Hall Hfit) as [Ht Hb].
  destruct (samples m) as [|s0 rest] eqn:E; [congruence|].
  rewrite Ht. set (n := Z.of_nat (length (s0 :: rest))) in *.
  assert (Hn : 0 < n) by (subst n; cbn [length]; lia).
  assert (H0 : 0 <= sum_goroutines (s0 :: rest)) by nia.
  rewrite Z.quot_div_nonneg by lia. split; [reflexivity|]. split.
  - apply Z.div_le_lower_bound; lia.
  - apply Z.div_le_upper_bound; lia.
Qed.

Lemma GetAvgGoroutines_bounds_witness :
  let m := takeSample (takeSample (takeSample NewMonitor
             (mkSample 0 1.5 150)) (mkSample 100 2.5 201))
             (mkSample 200 2 200) in
  (samples m = [] -> GetAvgGoroutines m = 0) /\
  (samples m <> [] ->
   GetAvgGoroutines m
   = sum_goroutines (samples m) / Z.of_nat (length (samples m)) /\
   150 <= GetAvgGoroutines m <= 201).
Proof.
  apply GetAvgGoroutines_bounds.
  - lia.
  - repeat constructor; cbn; lia.
  - cbn. lia.
Defined.

(** The average of the counts 150, 201 and 200 is 183, not 183.67. *)
Example GetAvgGoroutines_truncates :
  GetAvgGoroutines
    (takeSample (takeSample (takeSample NewMonitor
       (mkSample 0 1.5 150)) (mkSample 100 2.5 201)) (mkSample 200 2 200))
  = 183.
Proof. reflexivity. Qed.

(** X18.  [Stop] on a monitor that has not been stopped takes one more sample, so
    that the getters afterwards read at least that sample, whether or not
    [Start] was called; a second [Stop] panics on the closed channel. *)
Theorem Stop_once (m : Monitor) (final again : Sample) :
  stopped m = false ->
  exists m',
    Stop m final = Some m' /\
    samples m' = samples m ++ [final] /\
    (exists s, In s (samples m') /\ GetPeakMemoryMB m' = MemoryMB s) /\
    Stop m' again = None.
Proof.
  intros Hs. unfold Stop. rewrite Hs. eexists. split; [reflexivity|].
  split; [reflexivity|]. split; [|reflexivity].
  apply GetPeakMemoryMB_nonempty.
  cbn [takeSample samples]. now destruct (samples m).
Qed.

End Monitor.

Lemma Stop_once_witness :
  exists m',
    resource.Stop (resource.Start resource.NewMonitor 0)
                  (resource.mkSample 100 2.5 201) = Some m' /\
    resource.samples m'
    = resource.samples (resource.Start resource.NewMonitor 0)
      ++ [resource.mkSample 100 2.5 201] /\
    (exists s, In s (resource.samples m') /\
               resource.GetPeakMemoryMB m' = resource.MemoryMB s) /\
    resource.Stop m' (resource.mkSample 200 2 200) = None.
Proof.
  apply Stop_once. reflexivity.
Defined.

(** ** The bounds and the order of completion *)

(** X12.  The first start and the last end do not depend on the order in which
    the auctions completed: two collections that are permutations of each
    other get the same bounds. *)
Theorem bounds_completion_order (rs rs' : list Auction) :
  Permutation rs rs' -> manager.bounds rs = manager.bounds rs'.
Proof.
  intros Hperm.
  destruct rs as [|a rs].
  - apply Permutation_nil in Hperm. now subst.
  - assert (Hne : a :: rs <> []) by discriminate.
    assert (Hne' : rs' <> []).
    { intros ->. apply Permutation_sym, Permutation_nil in Hperm.
      discriminate. }
    destruct (bounds_spec _ Hne) as (Hall & (a1 & Ha1 & Hs1) & (a2 & Ha2 & He2)).
    destruct (bounds_spec _ Hne')
      as (Hall' & (b1 & Hb1 & Hs1') & (b2 & Hb2 & He2')).
    pose proof (Hall _ (Permutation_in _ (Permutation_sym Hperm) Hb1)).
    pose proof (Hall _ (Permutation_in _ (Permutation_sym Hperm) Hb2)).
    pose proof (Hall' _ (Permutation_in _ Hperm Ha1)).
    pose proof (Hall' _ (Permutation_in _ Hperm Ha2)).
    destruct (manager.bounds (a :: rs)) as [f l].
    destruct (manager.bounds rs') as [f' l'].
    cbn [fst snd] in *. f_equal; lia.
Qed.

Lemma bounds_completion_order_witness :
  manager.bounds [sample.result 1; DetermineWinner (NewAuction 2 (5 * Second))]
  = manager.bounds [DetermineWinner (NewAuction 2 (5 * Second)); sample.result 1].
Proof.
  apply bounds_completion_order. apply perm_swap.
Defined.

(** ** The auctions that the manager returns *)

(** X13.  Every auction that [manager.Run] returns is resolved and consistent: its
    count is the number of its bids, at most one hundred; its winner is the
    one [DetermineWinner] picks among its bids; no bidder occurs twice; its
    end is at least the 5 s of the timeout after its start; and every bid is
    stamped at least 10 ms after the start and not after the end. *)
Theorem Run_returns_resolved_auctions (rnd : nat -> float) (s : manager.state)
    (a : Auction) :
  manager.reachable (manager.NewManager rnd) manager.init s ->
  In a (manager.auctionResults s) ->
  TotalBids a = Z.of_nat (length (Bids a)) /\
  (length (Bids a) <= 100)%nat /\
  Winner a = highest (Bids a) /\
  NoDup (map BidderID (Bids a)) /\
  StartTime a + 5 * Second <= EndTime a /\
  forall b, In b (Bids a) ->
    StartTime a + 10 * Millisecond <= Timestamp b <= EndTime a.
Proof.
  intros Hs Ha.
  pose proof (managerFacts.inv_reachable _ s Hs) as (_ & _ & _ & Hcomp & _).
  destruct (Hcomp a) as (t0 & st & Hst & Hc & <-).
  { unfold manager.emitted. apply in_or_app. now left. }
  destruct (provenanceFacts.wf_timing_reachable _ _ _ _ _ Hst)
    as [(_ & _ & Ht) (_ & Hts & _ & _ & Hpc)].
  rewrite Hc in Ht, Hpc.
  destruct Ht as (_ & _ & _ & _ & _ & _ & Hend & Hwin & Htot).
  destruct Hpc as (_ & _ & Hlate).
  destruct (provenanceFacts.ids_reachable _ _ Hst) as [_ Hl].
  rewrite provenanceFacts.ids_init, length_map in Hl.
  unfold auction.ids in Hl. rewrite !length_app, !length_map in Hl.
  cbn [manager.NewManager manager.bidders] in Hl.
  rewrite length_map, length_seq in Hl. unfold manager.NumBidders in Hl.
  assert (Hnd : NoDup (auction.ids st)).
  { eapply auctionFacts.NoDup_ids; [|exact Hst].
    rewrite provenanceFacts.ids_init. apply NewManager_NoDup. }
  unfold auction.ids in Hnd. do 3 apply NoDup_app_remove_l in Hnd.
  split; [exact Htot|]. split; [lia|]. split; [exact Hwin|].
  split; [exact Hnd|]. split; [exact Hend|].
  intros b Hb. split.
  - apply Hts. unfold provenance.bids_of. apply in_or_app. now right.
  - now apply Hlate.
Qed.

Lemma Run_returns_resolved_auctions_witness :
  let a := sample.result 40 in
  TotalBids a = Z.of_nat (length (Bids a)) /\
  (length (Bids a) <= 100)%nat /\
  Winner a = highest (Bids a) /\
  NoDup (map BidderID (Bids a)) /\
  StartTime a + 5 * Second <= EndTime a /\
  forall b, In b (Bids a) ->
    StartTime a + 10 * Millisecond <= Timestamp b <= EndTime a.
Proof.
  apply (Run_returns_resolved_auctions (fun _ => 0.5%float) sample.returned).
  - exact sample_returned.
  - vm_compute. left. reflexivity.
Defined.

(** ** A run never deadlocks *)

Section RunFinishes.
Import auction auctionFacts.

Lemma timing_from auctionID timeout s s' :
  timing auctionID timeout s -> reachable s s' -> timing auctionID timeout s'.
Proof.
  intros Ht Hs. induction Hs; [assumption|].
  eapply timing_step; eassumption.
Qed.

Lemma finish_ChanClosed s :
  panicked s = false -> pc s = ChanClosed ->
  exists s', reachable s s' /\ pc s' = Closed /\ panicked s' = false.
Proof.
  intros Hp Hpc. eexists. split; [|split].
  - eapply reachable_first; [apply resolve; assumption|apply reach_init].
  - reflexivity.
  - reflexivity.
Qed.

Lemma finish_Waiting auctionID timeout s :
  timing auctionID timeout s -> panicked s = false -> pc s = Waiting ->
  exists s', reachable s s' /\ pc s' = Closed /\ panicked s' = false.
Proof.
  intros (_ & _ & Ht) Hp Hpc. rewrite Hpc in Ht.
  destruct Ht as (_ & _ & Hd & Hloop & _). unfold deadline_ok in Hd.
  destruct (deadline s) as [d|] eqn:Ed; [|contradiction].
  pose (s1 := mkState (Z.max (now s) d) (pc s) (au s) (deadline s) (fired s)
                (pending s) (placing s) (bidChan s) (loop s) false).
  pose (s2 := mkState (now s1) (pc s1) (au s1) (deadline s1) true
                (pending s1) (placing s1) (bidChan s1) (loop s1) false).
  pose (s3 := mkState (now s2) (pc s2) (au s2) (deadline s2) (fired s2)
                (pending s2) (placing s2) (bidChan s2) Stopped false).
  assert (H1 : step s s1) by (apply tick; [assumption|lia]).
  assert (H2 : step s1 s2).
  { apply fire with (d := d); [reflexivity|exact Ed|cbn [s1 now]; lia]. }
  assert (Hl : loop s = Looping \/ loop s = Stopped)
    by (destruct (loop s); [congruence|now left|now right]).
  assert (H3 : reachable s2 s3).
  { destruct Hl as [El|El].
    - eapply reachable_first; [|apply reach_init].
      apply stop; [reflexivity|exact El|reflexivity].
    - replace s3 with s2; [apply reach_init|].
      unfold s3, s2, s1.
      cbn [loop now pc au deadline fired pending placing bidChan].
      now rewrite El. }
  destruct (finish_ChanClosed
              (mkState (now s3) ChanClosed (au s3) (deadline s3) (fired s3)
                 (pending s3) (placing s3) (close_chan (bidChan s3))
                 (loop s3) false) eq_refl eq_refl)
    as (s' & Hs' & Hc' & Hp').
  exists s'. split; [|auto].
  eapply reachable_first; [exact H1|].
  eapply reachable_first; [exact H2|].
  eapply reachable_trans; [exact H3|].
  eapply reachable_first; [|exact Hs'].
  apply close; [reflexivity|exact Hpc|reflexivity|reflexivity].
Qed.

Lemma finish_Notifying auctionID timeout s :
  timing auctionID timeout s -> panicked s = false -> pc s = Notifying ->
  exists s', reachable s s' /\ pc s' = Closed /\ panicked s' = false.
Proof.
  intros Ht Hp Hpc.
  destruct (notify_all (pending s) s Hp Hpc eq_refl)
    as (s1 & H1 & Hp1 & Hpc1 & Hpe1 & _).
  pose (s2 := mkState (now s1) Waiting (au s1) (deadline s1) (fired s1) []
                (placing s1) (bidChan s1) Looping false).
  assert (H2 : step s1 s2) by (apply notified; assumption).
  assert (Ht2 : timing auctionID timeout s2).
  { eapply timing_step; [|exact H2]. eapply timing_from; eassumption. }
  destruct (finish_Waiting _ _ s2 Ht2 eq_refl eq_refl) as (s' & Hs' & Hc').
  exists s'. split; [|exact Hc'].
  eapply reachable_trans; [exact H1|].
  eapply reachable_first; [exact H2|exact Hs'].
Qed.

(** X19.  [Run] never deadlocks: from every state of a run in which nothing
    has panicked, whatever the bidders and the goroutines have done so far,
    the run can go on to the end, where the end time and the winner are set
    and the auction is sent. *)
Theorem Run_can_always_finish t0 auctionID timeout bidders s :
  reachable (init t0 auctionID timeout bidders) s ->
  panicked s = false ->
  exists s', reachable s s' /\ pc s' = Closed /\ panicked s' = false.
Proof.
  intros Hs Hp. pose proof (timing_reachable _ _ _ _ _ Hs) as Ht.
  destruct (pc s) eqn:Hpc.
  - (* Created *)
    pose (s1 := mkState (now s) Started
                  (set_StartTime
                     (set_Attributes (au s) (repeat 0%float NumAttributes))
                     (now s))
                  (deadline s) (fired s) (pending s) (placing s) (bidChan s)
                  (loop s) false).
    pose (s2 := mkState (now s1) Notifying (au s1)
                  (Some (now s1 + Timeout (au s1))) (fired s1) (pending s1)
                  (placing s1) (make_chan BidChanCap) (loop s1) false).
    assert (H1 : step s s1)
      by (apply start; [assumption|assumption|apply unit_draws_zeros]).
    assert (H2 : step s1 s2) by (apply open; reflexivity).
    assert (Ht2 : timing auctionID timeout s2).
    { eapply timing_step; [|exact H2]. eapply timing_step; eassumption. }
    destruct (finish_Notifying _ _ s2 Ht2 eq_refl eq_refl) as (s' & Hs' & Hc').
    exists s'. split; [|exact Hc'].
    eapply reachable_first; [exact H1|].
    eapply reachable_first; [exact H2|exact Hs'].
  - (* Started *)
    pose (s2 := mkState (now s) Notifying (au s)
                  (Some (now s + Timeout (au s))) (fired s) (pending s)
                  (placing s) (make_chan BidChanCap) (loop s) false).
    assert (H2 : step s s2) by (apply open; assumption).
    assert (Ht2 : timing auctionID timeout s2)
      by (eapply timing_step; eassumption).
    destruct (finish_Notifying _ _ s2 Ht2 eq_refl eq_refl) as (s' & Hs' & Hc').
    exists s'. split; [|exact Hc'].
    eapply reachable_first; [exact H2|exact Hs'].
  - now apply (finish_Notifying auctionID timeout).
  - now apply (finish_Waiting auctionID timeout).
  - now apply finish_ChanClosed.
  - exists s. split; [apply reach_init|auto].
Qed.

Lemma Run_can_always_finish_witness :
  let s := sample.final sample.short_start sample.until_deadline in
  exists s', reachable s s' /\ pc s' = Closed /\ panicked s' = false.
Proof.
  apply (Run_can_always_finish 0 1 (10 * Millisecond)
           (manager.bidders sample.mgr)).
  - apply (exec_sound sample.until_deadline). vm_compute. reflexivity.
  - vm_compute. reflexivity.
Defined.

End RunFinishes.
